(** * Scraping1975PacHurricanes.py: the heading-driven record extraction

    A shallow embedding of the script [Scraping1975PacHurricanes.py]:
    Python strings as sequences of code points, the parsed page as a tree
    of tags and strings with the navigation the script uses
    ([find_all], [find_next], [find], [find_next_sibling], [get_text],
    [stripped_strings], [.string]), the three regular expressions run
    by a backtracking matcher, and [process_hurricane] threading the five
    accumulator lists. *)

From Stdlib Require Import Ascii String.
From Stdlib Require Import List NArith Bool Arith Lia.
Import ListNotations.

(** ** Strings *)

(** A Python [str] is a sequence of Unicode code points. *)
Definition codepoint := N.
Bind Scope N_scope with codepoint.
Definition str := list codepoint.

(** A literal of the script that only holds Basic Latin characters. *)
Fixpoint py (s : string) : str :=
  match s with
  | EmptyString => []
  | String a s' => N_of_ascii a :: py s'
  end.

(** U+2013, the dash written in [date_pattern]. *)
Definition en_dash : codepoint := 8211%N.

Fixpoint str_eqb (a b : str) : bool :=
  match a, b with
  | [], [] => true
  | x :: a', y :: b' => N.eqb x y && str_eqb a' b'
  | _, _ => false
  end.

(** [s.startswith(p)] *)
Fixpoint startswith (p s : str) : bool :=
  match p, s with
  | [], _ => true
  | x :: p', y :: s' => N.eqb x y && startswith p' s'
  | _ :: _, [] => false
  end.

(** [sub in s] *)
Fixpoint contains (sub s : str) : bool :=
  startswith sub s ||
  match s with
  | [] => false
  | _ :: s' => contains sub s'
  end.

(** [s.replace(old, new)] for a non-empty [old]: occurrences are replaced
    from the left and do not overlap; [skip] counts the characters of the
    occurrence just replaced that are still to be passed over. *)
Fixpoint replace_from (skip : nat) (old new s : str) : str :=
  match s with
  | [] => []
  | c :: s' =>
      match skip with
      | S k => replace_from k old new s'
      | O =>
          if startswith old s
          then new ++ replace_from (length old - 1) old new s'
          else c :: replace_from 0 old new s'
      end
  end.

Definition replace (old new s : str) : str := replace_from 0 old new s.

(** [sep.join(l)] *)
Fixpoint join (sep : str) (l : list str) : str :=
  match l with
  | [] => []
  | x :: rest =>
      match rest with
      | [] => x
      | _ :: _ => x ++ sep ++ join sep rest
      end
  end.

Definition is_empty {A : Type} (l : list A) : bool :=
  match l with
  | [] => true
  | _ :: _ => false
  end.

(** [str(n)] for a length. *)
Fixpoint digits_of (d : Decimal.uint) : str :=
  match d with
  | Decimal.Nil => []
  | Decimal.D0 d' => 48%N :: digits_of d'
  | Decimal.D1 d' => 49%N :: digits_of d'
  | Decimal.D2 d' => 50%N :: digits_of d'
  | Decimal.D3 d' => 51%N :: digits_of d'
  | Decimal.D4 d' => 52%N :: digits_of d'
  | Decimal.D5 d' => 53%N :: digits_of d'
  | Decimal.D6 d' => 54%N :: digits_of d'
  | Decimal.D7 d' => 55%N :: digits_of d'
  | Decimal.D8 d' => 56%N :: digits_of d'
  | Decimal.D9 d' => 57%N :: digits_of d'
  end.

Definition decimal (n : nat) : str := digits_of (Nat.to_uint n).

(** ** Character classes

    The interpreter's Unicode character database is not part of the
    repository.  Basic Latin (code points below 128) is classified here;
    for every other code point the classification is read from a table
    [unicode_db], about which nothing is assumed.  The en dash, which the
    script's own pattern text names, is punctuation: no white space, no
    digit, no letter. *)
Record unicode_db := {
  (** [str.isspace] and the class [\s] *)
  uni_isspace : codepoint -> bool;
  (** the class [\d] *)
  uni_isdigit : codepoint -> bool;
  (** [str.isalnum]; the class [\w] adds the underscore *)
  uni_isalnum : codepoint -> bool;
  (** [str.lower] at one character, given the characters before it (nearest
      first) and after it *)
  uni_lower : str -> codepoint -> str -> str;
  (** whether a Basic Latin letter of a pattern compiled with
      [re.IGNORECASE] matches the character *)
  uni_ignorecase : codepoint -> codepoint -> bool
}.

(** The table that classifies no code point outside Basic Latin and leaves
    it alone when lowering. *)
Definition basic_latin : unicode_db :=
  {| uni_isspace := fun _ => false;
     uni_isdigit := fun _ => false;
     uni_isalnum := fun _ => false;
     uni_lower := fun _ c _ => [c];
     uni_ignorecase := fun _ _ => false |}.

Definition between (lo hi c : codepoint) : bool :=
  (N.leb lo c && N.leb c hi)%bool.

Definition is_ascii (c : codepoint) : bool := N.ltb c 128.

Definition ascii_lower (c : codepoint) : codepoint :=
  if between 65 90 c then (c + 32)%N else c.

Section Classes.
Variable U : unicode_db.

Definition isspace (c : codepoint) : bool :=
  if is_ascii c then between 9 13 c || between 28 32 c
  else if N.eqb c en_dash then false
  else uni_isspace U c.

Definition isdigit (c : codepoint) : bool :=
  if is_ascii c then between 48 57 c
  else if N.eqb c en_dash then false
  else uni_isdigit U c.

Definition isword (c : codepoint) : bool :=
  if is_ascii c
  then between 48 57 c || between 65 90 c || between 97 122 c || N.eqb c 95
  else if N.eqb c en_dash then false
  else uni_isalnum U c.

(** A literal letter [p] of a pattern compiled with [re.IGNORECASE]
    against the character [c]. *)
Definition ignorecase_eq (p c : codepoint) : bool :=
  if is_ascii c then N.eqb (ascii_lower p) (ascii_lower c)
  else uni_ignorecase U p c.

(** [s.lower()]; [before] holds the characters already passed, nearest
    first. *)
Fixpoint lower_from (before s : str) : str :=
  match s with
  | [] => []
  | c :: s' =>
      (if is_ascii c then [ascii_lower c] else uni_lower U before c s')
      ++ lower_from (c :: before) s'
  end.

Definition lower (s : str) : str := lower_from [] s.

(** [s.lstrip()], [s.strip()] *)
Fixpoint lstrip (s : str) : str :=
  match s with
  | [] => []
  | c :: s' => if isspace c then lstrip s' else s
  end.

Definition strip (s : str) : str := rev (lstrip (rev (lstrip s))).

End Classes.

(** ** Regular expressions

    The fragment of Python's [re] the script's three patterns are written
    in, matched the way [re] does: by backtracking, alternatives from the
    left, repetitions greedy. *)

Inductive charset :=
| CLit (c : codepoint)          (* a literal character *)
| CRange (lo hi : codepoint)    (* [lo-hi] *)
| CWord                         (* \w *)
| CDigit                        (* \d *)
| CSpace                        (* \s *)
| CUnion (a b : charset).       (* [ab] *)

Inductive regex :=
| Eps
| Chr (cs : charset)
| Seq (a b : regex)
| Alt (a b : regex)             (* a|b *)
| Star (a : regex)              (* a* *)
| Group (i : nat) (a : regex).  (* the i-th capturing group *)

(** [a+], [a?] and a literal word *)
Definition Plus (a : regex) : regex := Seq a (Star a).
Definition Opt (a : regex) : regex := Alt a Eps.

Fixpoint Lits (s : str) : regex :=
  match s with
  | [] => Eps
  | c :: s' => Seq (Chr (CLit c)) (Lits s')
  end.

(** The groups captured so far, latest first. *)
Definition groups := list (nat * str).

Fixpoint group_lookup (i : nat) (g : groups) : option str :=
  match g with
  | [] => None
  | (j, s) :: g' => if Nat.eqb i j then Some s else group_lookup i g'
  end.

(** [m.group(i)]; every group of the script's patterns takes part in every
    match of its pattern. *)
Definition group (i : nat) (g : groups) : str :=
  match group_lookup i g with
  | Some s => s
  | None => []
  end.

Section Matcher.
Variable U : unicode_db.
(** [re.IGNORECASE] *)
Variable ignorecase : bool.

Fixpoint in_charset (cs : charset) (c : codepoint) : bool :=
  match cs with
  | CLit p => if ignorecase then ignorecase_eq U p c else N.eqb p c
  | CRange lo hi => between lo hi c
  | CWord => isword U c
  | CDigit => isdigit U c
  | CSpace => isspace U c
  | CUnion a b => in_charset a c || in_charset b c
  end.

(** [rematch r s g k]: match [r] at the front of [s] and hand what is left
    to [k]; when [k] refuses, try the next way to match [r].  A repetition
    takes another round first and gives it back when the rest fails; a round
    that consumes nothing is not taken. *)
Fixpoint rematch (r : regex) (s : str) (g : groups)
    (k : str -> groups -> option (str * groups)) : option (str * groups) :=
  match r with
  | Eps => k s g
  | Chr cs =>
      match s with
      | c :: s' => if in_charset cs c then k s' g else None
      | [] => None
      end
  | Seq a b => rematch a s g (fun s1 g1 => rematch b s1 g1 k)
  | Alt a b =>
      match rematch a s g k with
      | Some m => Some m
      | None => rematch b s g k
      end
  | Star a =>
      (fix rounds (n : nat) (s : str) (g : groups) : option (str * groups) :=
         match n with
         | O => k s g
         | S n' =>
             match rematch a s g
                     (fun s1 g1 =>
                        if Nat.ltb (length s1) (length s)
                        then rounds n' s1 g1 else None) with
             | Some m => Some m
             | None => k s g
             end
         end) (S (length s)) s g
  | Group i a =>
      rematch a s g
        (fun s1 g1 => k s1 ((i, firstn (length s - length s1) s) :: g1))
  end.

(** The rounds of a repetition [a*] before the continuation [k], as in the
    [Star] case of [rematch]. *)
Definition star_rounds (a : regex) (k : str -> groups -> option (str * groups))
  : nat -> str -> groups -> option (str * groups) :=
  fix rounds (n : nat) (s : str) (g : groups) : option (str * groups) :=
    match n with
    | O => k s g
    | S n' =>
        match rematch a s g
                (fun s1 g1 =>
                   if Nat.ltb (length s1) (length s)
                   then rounds n' s1 g1 else None) with
        | Some m => Some m
        | None => k s g
        end
    end.


(** A match that starts at the front of [s]: what follows it, and its
    groups. *)
Definition match_here (r : regex) (s : str) : option (str * groups) :=
  rematch r s [] (fun s1 g1 => Some (s1, g1)).

(** [pattern.search(s)]: the leftmost match. *)
Fixpoint search (r : regex) (s : str) : option groups :=
  match match_here r s with
  | Some (_, g) => Some g
  | None =>
      match s with
      | [] => None
      | _ :: s' => search r s'
      end
  end.

(** [re.findall(pattern, s)] for a pattern without groups: the matches from
    left to right, none overlapping; [skip] counts the characters of the
    last match that are still to be passed over. *)
Fixpoint findall_from (skip : nat) (r : regex) (s : str) : list str :=
  match s with
  | [] =>
      match skip, match_here r [] with
      | O, Some _ => [[]]
      | _, _ => []
      end
  | _ :: s' =>
      match skip with
      | S k => findall_from k r s'
      | O =>
          match match_here r s with
          | Some (rest, _) =>
              let n := length s - length rest in
              firstn n s :: findall_from (n - 1) r s'
          | None => findall_from 0 r s'
          end
      end
  end.

Definition findall (r : regex) (s : str) : list str := findall_from 0 r s.

(** Whether the pattern matches at no position of [pre] in the string
    [pre ++ rest]: the leftmost match, if there is one, starts in [rest]. *)
Fixpoint no_match_before (r : regex) (pre rest : str) : bool :=
  match pre with
  | [] => true
  | _ :: pre' =>
      match match_here r (pre ++ rest) with
      | Some _ => false
      | None => no_match_before r pre' rest
      end
  end.

(** The words a pattern stands for. *)
Fixpoint lang (r : regex) (w : str) : Prop :=
  match r with
  | Eps => w = []
  | Chr cs => exists c, w = [c] /\ in_charset cs c = true
  | Seq a b => exists w1 w2, w = w1 ++ w2 /\ lang a w1 /\ lang b w2
  | Alt a b => lang a w \/ lang b w
  | Star a => exists ws, w = concat ws /\ Forall (lang a) ws
  | Group _ a => lang a w
  end.

(** Every capturing group of [r] only stands for words that [P] accepts
    under the group's number. *)
Fixpoint captures (P : nat -> str -> Prop) (r : regex) : Prop :=
  match r with
  | Eps => True
  | Chr _ => True
  | Seq a b => captures P a /\ captures P b
  | Alt a b => captures P a /\ captures P b
  | Star a => captures P a
  | Group i a => captures P a /\ forall w, lang a w -> P i w
  end.

End Matcher.

(** Whether every match of [r] passes through a group numbered [i]. *)
Fixpoint binds (i : nat) (r : regex) : bool :=
  match r with
  | Eps => false
  | Chr _ => false
  | Seq a b => binds i a || binds i b
  | Alt a b => binds i a && binds i b
  | Star _ => false
  | Group j a => Nat.eqb i j || binds i a
  end.

(** What the matcher has captured: each entry is accepted by [P]. *)
Definition captured (P : nat -> str -> Prop) (g : groups) : Prop :=
  Forall (fun e => P (fst e) (snd e)) g.

(** ** The script's patterns *)

(** [\w+ \d+] *)
Definition month_day : regex :=
  Seq (Plus (Chr CWord)) (Seq (Chr (CLit 32)) (Plus (Chr CDigit))).

(** [date_pattern = re.compile(r'(\w+ \d+)\s*[–-]\s*(\w+ \d+)')] *)
Definition date_pattern : regex :=
  Seq (Group 1 month_day)
    (Seq (Star (Chr CSpace))
       (Seq (Chr (CUnion (CLit en_dash) (CLit 45)))
          (Seq (Star (Chr CSpace)) (Group 2 month_day)))).

(** [death_number_pattern = re.compile(
      r'(?:killed|caused|fatalities|deaths|killing)\s*(\d+)\s*(?:people|fatalities|deaths|persons)?',
      re.IGNORECASE)] *)
Definition death_number_pattern : regex :=
  Seq (Alt (Lits (py "killed"))
        (Alt (Lits (py "caused"))
           (Alt (Lits (py "fatalities"))
              (Alt (Lits (py "deaths")) (Lits (py "killing"))))))
    (Seq (Star (Chr CSpace))
       (Seq (Group 1 (Plus (Chr CDigit)))
          (Seq (Star (Chr CSpace))
             (Opt (Alt (Lits (py "people"))
                     (Alt (Lits (py "fatalities"))
                        (Alt (Lits (py "deaths")) (Lits (py "persons"))))))))).

(** [r'[A-Z][a-z]+(?: [A-Z][a-z]+)*'] *)
Definition capitalized : regex :=
  Seq (Chr (CRange 65 90)) (Plus (Chr (CRange 97 122))).

Definition proper_noun_pattern : regex :=
  Seq capitalized (Star (Seq (Chr (CLit 32)) capitalized)).

Definition date_search (U : unicode_db) (s : str) : option groups :=
  search U false date_pattern s.

Definition death_search (U : unicode_db) (s : str) : option groups :=
  search U true death_number_pattern s.

(** ** The parsed page

    What [BeautifulSoup(response.content, "html.parser")] builds: tags with
    their contents, and strings.  [class_] is a tag's [class] attribute, the
    list of its white-space separated values (empty when the tag has none);
    the script reads no other attribute.  [Comment] stands for the strings
    that [get_text] and [stripped_strings] pass over. *)
#[warnings="-register-all"]
Inductive node :=
| NavigableString (s : str)
| Comment (s : str)
| Tag (name : str) (class_ : list str) (contents : list node).

Definition is_tag (name : str) (n : node) : bool :=
  match n with
  | Tag name' _ _ => str_eqb name' name
  | _ => false
  end.

(** [for sup in soup.find_all('sup'): sup.extract()] leaves the tree without
    its [sup] tags and what they hold. *)
Fixpoint drop_sup (n : node) : node :=
  match n with
  | Tag name cls cs =>
      Tag name cls
        ((fix kept (l : list node) : list node :=
            match l with
            | [] => []
            | c :: l' =>
                if is_tag (py "sup") c then kept l' else drop_sup c :: kept l'
            end) cs)
  | _ => n
  end.

(** The nodes of a subtree in document order, each with the siblings that
    follow it under its parent. *)
Fixpoint subtree (n : node) (sibs : list node) : list (node * list node) :=
  (n, sibs) ::
  match n with
  | Tag _ _ cs =>
      (fix forest (l : list node) : list (node * list node) :=
         match l with
         | [] => []
         | c :: l' => subtree c l' ++ forest l'
         end) cs
  | _ => []
  end.

(** The loops inside [drop_sup] and [subtree], by name. *)
Definition drop_sups : list node -> list node :=
  fix kept (l : list node) : list node :=
    match l with
    | [] => []
    | c :: l' =>
        if is_tag (py "sup") c then kept l' else drop_sup c :: kept l'
    end.

Definition subtrees : list node -> list (node * list node) :=
  fix forest (l : list node) : list (node * list node) :=
    match l with
    | [] => []
    | c :: l' => subtree c l' ++ forest l'
    end.

(** [tag.descendants] *)
Definition descendants (n : node) : list (node * list node) :=
  tl (subtree n []).

(** A node in its place: [el_next_siblings] is what [.next_siblings] runs
    over, [el_next_elements] what [.next_elements] runs over (first the
    node's own descendants, then the rest of the document). *)
Record element := {
  el_node : node;
  el_next_siblings : list node;
  el_next_elements : list node
}.

Fixpoint locate (l : list (node * list node)) : list element :=
  match l with
  | [] => []
  | (n, sibs) :: rest =>
      {| el_node := n; el_next_siblings := sibs;
         el_next_elements := map fst rest |} :: locate rest
  end.

(** [soup.find_all(name)] *)
Definition find_all (name : str) (soup : node) : list element :=
  filter (fun e => is_tag name (el_node e)) (locate (descendants soup)).

(** How bs4 matches the wanted class against a tag's [class] list: one of
    the values is the wanted one, or the values joined by a blank are. *)
Definition class_matches (wanted : str) (cls : list str) : bool :=
  existsb (str_eqb wanted) cls || str_eqb (join (py " ") cls) wanted.

Definition is_tag_with_class (name wanted : str) (n : node) : bool :=
  match n with
  | Tag name' cls _ => str_eqb name' name && class_matches wanted cls
  | _ => false
  end.

(** [element.find_next(name, {"class": wanted})] *)
Definition find_next (name wanted : str) (e : element) : option node :=
  find (is_tag_with_class name wanted) (el_next_elements e).

(** [tag.string]: the tag's only child when that is a string, that child's
    [.string] when it is a tag, [None] otherwise. *)
Fixpoint tag_string (n : node) : option str :=
  match n with
  | NavigableString s => Some s
  | Comment s => Some s
  | Tag _ _ cs =>
      match cs with
      | [c] => tag_string c
      | _ => None
      end
  end.

Definition string_is (text : str) (n : node) : bool :=
  match tag_string n with
  | Some s => str_eqb s text
  | None => false
  end.

(** [tag.find(name, text=text)]: the first descendant tag of that name
    whose [.string] is [text], with its following siblings. *)
Definition find_text (name text : str) (n : node) : option (node * list node) :=
  find (fun d => is_tag name (fst d) && string_is text (fst d)) (descendants n).

(** [tag.find_next_sibling(name)] *)
Definition find_next_sibling_named (name : str) (sibs : list node) : option node :=
  find (is_tag name) sibs.

Section Extraction.
Variable U : unicode_db.

(** [tag.stripped_strings]: the strings below the tag in document order,
    each stripped, the empty ones left out. *)
Fixpoint stripped_strings (n : node) : list str :=
  match n with
  | NavigableString s =>
      let s' := strip U s in if is_empty s' then [] else [s']
  | Comment _ => []
  | Tag _ _ cs => flat_map stripped_strings cs
  end.

(** [tag.get_text(strip=True)] *)
Definition get_text_strip (n : node) : str := concat (stripped_strings n).

(** ** The script's functions *)

Definition affected_keywords : list str :=
  [py "landfall"; py "affected"; py "hit"; py "struck"; py "damaged";
   py "moved through"; py "impacted"].

(** [any(keyword in text.lower() for keyword in affected_keywords)] *)
Definition any_keyword (text : str) : bool :=
  existsb (fun keyword => contains keyword (lower U text)) affected_keywords.

Definition extract_affected_areas (text : str) : list str :=
  let locations := findall U false proper_noun_pattern text in
  let relevant_locations := filter (fun _ => any_keyword text) locations in
  if is_empty relevant_locations then locations else relevant_locations.

(** The five accumulator lists of the script. *)
Record table := {
  hurricane_names : list str;
  start_dates : list str;
  end_dates : list str;
  deaths : list str;
  areas_affected : list str
}.

Definition empty_table : table :=
  {| hurricane_names := []; start_dates := []; end_dates := [];
     deaths := []; areas_affected := [] |}.

(** The local variables of [process_hurricane]. *)
Record locals := {
  hurricane_name : str;
  date_start : str;
  date_end : str;
  hurricane_deaths : str;
  hurricane_affected_areas : list str
}.

(** [heading.get_text(strip=True).replace("[edit]", "")] *)
Definition heading_name (heading : element) : str :=
  replace (py "[edit]") [] (get_text_strip (el_node heading)).

(** Lines 51-57: the name and the initial values. *)
Definition initial_locals (heading : element) : locals :=
  {| hurricane_name := heading_name heading;
     date_start := py "-";
     date_end := py "-";
     hurricane_deaths := py "0";
     hurricane_affected_areas := [] |}.

(** Lines 59-70: the "Duration" row of the infobox table. *)
Definition find_duration (heading : element) (l : locals) : locals :=
  match find_next (py "table") (py "infobox") heading with
  | Some infobox =>
      match find_text (py "th") (py "Duration") infobox with
      | Some duration_row =>
          match find_next_sibling_named (py "td") (snd duration_row) with
          | Some duration_data =>
              let duration_text := get_text_strip duration_data in
              match date_search U duration_text with
              | Some date_parts =>
                  {| hurricane_name := hurricane_name l;
                     date_start := group 1 date_parts;
                     date_end := group 2 date_parts;
                     hurricane_deaths := hurricane_deaths l;
                     hurricane_affected_areas := hurricane_affected_areas l |}
              | None => l
              end
          | None => l
          end
      | None => l
      end
  | None => l
  end.

(** [" ".join(sibling.stripped_strings)] *)
Definition paragraph_text (sibling : node) : str :=
  join (py " ") (stripped_strings sibling).

(** Lines 87-97, the body of the loop at a [p] sibling, on its text. *)
Definition scan_text (text : str) (l : locals) : locals :=
  let deaths' :=
    match death_search U text with
    | Some death_match => group 1 death_match
    | None => hurricane_deaths l
    end in
  let locations := extract_affected_areas text in
  {| hurricane_name := hurricane_name l;
     date_start := date_start l;
     date_end := date_end l;
     hurricane_deaths := deaths';
     hurricane_affected_areas :=
       if is_empty locations then hurricane_affected_areas l
       else hurricane_affected_areas l ++ locations |}.

(** Lines 73-99, the loop over the siblings after the heading.
    [find_next_sibling()] passes over strings and yields tags only; the loop
    ends at the first tag named [h3] or [h4], or with the siblings. *)
Fixpoint sibling_walk (sibs : list node) (l : locals) : locals :=
  match sibs with
  | [] => l
  | NavigableString _ :: rest => sibling_walk rest l
  | Comment _ :: rest => sibling_walk rest l
  | (Tag name _ _ as sibling) :: rest =>
      if str_eqb name (py "h3") || str_eqb name (py "h4") then l
      else if str_eqb name (py "p")
           then sibling_walk rest (scan_text (paragraph_text sibling) l)
           else sibling_walk rest l
  end.

(** ["olivia" in hurricane_name.lower()] *)
Definition is_olivia (name : str) : bool :=
  contains (py "olivia") (lower U name).

(** Lines 101-105, the manual override. *)
Definition olivia_override (l : locals) : locals :=
  if is_olivia (hurricane_name l)
  then {| hurricane_name := hurricane_name l;
          date_start := date_start l;
          date_end := date_end l;
          hurricane_deaths := py "30";
          hurricane_affected_areas := [py "Sinaloa, Mexico"] |}
  else l.

(** The local variables when line 107 is reached. *)
Definition extracted (heading : element) : locals :=
  olivia_override
    (sibling_walk (el_next_siblings heading)
       (find_duration heading (initial_locals heading))).

(** Line 107 *)
Definition joined_areas (l : locals) : str :=
  if is_empty (hurricane_affected_areas l) then py "-"
  else join (py "; ") (hurricane_affected_areas l).

(** Lines 108-112 *)
Definition append_record (l : locals) (t : table) : table :=
  {| hurricane_names := hurricane_names t ++ [hurricane_name l];
     start_dates := start_dates t ++ [date_start l];
     end_dates := end_dates t ++ [date_end l];
     deaths := deaths t ++ [hurricane_deaths l];
     areas_affected := areas_affected t ++ [joined_areas l] |}.

Definition process_hurricane (heading : element) (t : table) : table :=
  append_record (extracted heading) t.

(** The test of line 120. *)
Definition names_a_storm (heading : element) : bool :=
  let name := heading_name heading in
  contains (py "hurricane") (lower U name)
  || contains (py "storm") (lower U name).

(** Lines 118-121, the loop over the headings. *)
Fixpoint process_headings (headings : list element) (t : table) : table :=
  match headings with
  | [] => t
  | heading :: rest =>
      process_headings rest
        (if names_a_storm heading then process_hurricane heading t else t)
  end.

(** Lines 16-20: the tree the headings are looked up in. *)
Definition soup_of (page : list node) : node :=
  drop_sup (Tag (py "[document]") [] page).

(** The script from the parsed page to the five lists it hands to the
    data frame. *)
Definition scrape (page : list node) : table :=
  process_headings (find_all (py "h3") (soup_of page)) empty_table.

(** [logging.basicConfig(level=logging.INFO,
    format='%(levelname)s: %(message)s')]: a line of the log. *)
Inductive levelname := INFO | WARNING.

Definition log_line (level : levelname) (message : str) : str :=
  match level with
  | INFO => py "INFO"
  | WARNING => py "WARNING"
  end ++ py ": " ++ message.

(** Lines 123-127: the line logged once the headings are processed. *)
Definition report (t : table) : str :=
  if is_empty (hurricane_names t)
  then log_line WARNING (py "No hurricane names found!")
  else log_line INFO
         (py "Extracted " ++ decimal (length (hurricane_names t))
            ++ py " hurricane names.").

(** ** Notions the properties are stated with *)

(** A death count as the pattern's group writes it: digits, at least one. *)
Definition digit_string (w : str) : Prop :=
  w <> [] /\ Forall (fun c => isdigit U c = true) w.

(** A date as the pattern's groups write it: a word, a blank, a number. *)
Definition month_day_shape (w : str) : Prop :=
  exists word digits,
    w = word ++ 32%N :: digits /\
    word <> [] /\ Forall (fun c => isword U c = true) word /\
    digit_string digits.


(** What a step of [process_hurricane] leaves alone. *)
Definition same_heading_fields (l l' : locals) : Prop :=
  hurricane_name l' = hurricane_name l /\
  date_start l' = date_start l /\
  date_end l' = date_end l.

Definition same_walk_fields (l l' : locals) : Prop :=
  hurricane_name l' = hurricane_name l /\
  hurricane_deaths l' = hurricane_deaths l /\
  hurricane_affected_areas l' = hurricane_affected_areas l.

(** Lines 62-70 at a given infobox table: the two dates its "Duration" row
    gives, when it gives any. *)
Definition duration_dates (infobox : node) : option (str * str) :=
  match find_text (py "th") (py "Duration") infobox with
  | Some duration_row =>
      match find_next_sibling_named (py "td") (snd duration_row) with
      | Some duration_data =>
          match date_search U (get_text_strip duration_data) with
          | Some date_parts => Some (group 1 date_parts, group 2 date_parts)
          | None => None
          end
      | None => None
      end
  | None => None
  end.

(** The headings the loop of line 118 hands to [process_hurricane]. *)
Definition storm_headings (page : list node) : list element :=
  filter names_a_storm (find_all (py "h3") (soup_of page)).

Definition is_stop (n : node) : bool :=
  is_tag (py "h3") n || is_tag (py "h4") n.

(** The siblings of a heading up to the first [h3] or [h4] tag. *)
Fixpoint section_siblings (sibs : list node) : list node :=
  match sibs with
  | [] => []
  | n :: rest => if is_stop n then [] else n :: section_siblings rest
  end.

(** The texts of the paragraphs among them, in order. *)
Definition section_texts (sibs : list node) : list str :=
  map paragraph_text (filter (is_tag (py "p")) (section_siblings sibs)).

(** The body of the loop run over a list of paragraph texts. *)
Definition scan_all (texts : list str) (l : locals) : locals :=
  fold_left (fun l text => scan_text text l) texts l.

(** The nodes of a heading's own section: those siblings and everything
    below them. *)
Definition section_nodes (sibs : list node) : list node :=
  flat_map (fun n => map fst (subtree n [])) (section_siblings sibs).

Definition is_infobox (n : node) : bool :=
  is_tag_with_class (py "table") (py "infobox") n.

(** The plain proper-noun matcher, without the keyword test. *)
Definition proper_nouns (text : str) : list str :=
  findall U false proper_noun_pattern text.

End Extraction.

(** Whether every located node of [l] has its following siblings among the
    nodes that follow it, [tail] being what follows [l]. *)
Definition siblings_follow (tail : list node) (l : list (node * list node))
  : Prop :=
  Forall (fun e => incl (el_next_siblings e) (el_next_elements e ++ tail))
    (locate l).

Definition is_capital (c : codepoint) : bool := between 65 90 c.
Definition is_small (c : codepoint) : bool := between 97 122 c.

(** An area as the proper-noun pattern writes it: a capital A-Z first, then
    nothing but the letters a-z, A-Z and blanks. *)
Definition proper_noun_shape (w : str) : Prop :=
  exists c rest,
    w = c :: rest /\ is_capital c = true /\ rest <> [] /\
    Forall (fun x => is_small x || is_capital x || N.eqb x 32 = true) rest.

(** ** Pages of the examples *)

Definition text_tag (name text : string) : node :=
  Tag (py name) [] [NavigableString (py text)].

(** A heading as the site writes it, with its edit link. *)
Definition h3 (text : string) : node :=
  Tag (py "h3") []
    [Tag (py "span") [py "mw-headline"] [NavigableString (py text)];
     Tag (py "span") [py "mw-editsection"] [NavigableString (py "[edit]")]].

Definition infobox_duration (duration : str) : node :=
  Tag (py "table") [py "infobox"; py "vevent"]
    [Tag (py "tr") []
       [Tag (py "th") [] [NavigableString (py "Duration")];
        Tag (py "td") [] [NavigableString duration]]].

Definition no_element : element :=
  {| el_node := Comment []; el_next_siblings := []; el_next_elements := [] |}.

(** The [i]-th [h3] heading of a page. *)
Definition heading_at (i : nat) (page : list node) : element :=
  nth i (find_all (py "h3") (soup_of page)) no_element.

Definition august_12_18 : str := py "August 12 " ++ [en_dash] ++ py " August 18".
Definition june_2_5 : str := py "June 2 " ++ [en_dash] ++ py " June 5".

(** A storm with one paragraph that names no death toll. *)
Definition quiet_page : list node :=
  [h3 "Tropical Storm One"; text_tag "p" "It dissipated at sea."].

(** A storm without a table of its own, followed by one that has one. *)
Definition neighbour_page : list node :=
  [h3 "Tropical Storm One"; text_tag "p" "It dissipated at sea.";
   h3 "Hurricane Two"; infobox_duration june_2_5;
   text_tag "p" "It stayed far from land."].

(** A storm heading directly followed by another heading of its level. *)
Definition notes_page : list node :=
  [h3 "Hurricane Agatha"; text_tag "h3" "Notes";
   text_tag "p" "The storm killed 15 people."].

Definition lily_page : list node :=
  [h3 "Hurricane Lily"; infobox_duration august_12_18;
   text_tag "p" "Floods caused 7 deaths in Mexico.";
   text_tag "p" "The storm killed 15 people in Sinaloa.";
   text_tag "p" "It dissipated at sea."].

Definition olivia_page : list node :=
  [h3 "Hurricane Olivia"; infobox_duration august_12_18;
   text_tag "p" "The storm killed 15 people in Sinaloa."].

(** A storm whose infobox table has no "Duration" row. *)
Definition formed_page : list node :=
  [h3 "Hurricane Lily";
   Tag (py "table") [py "infobox"]
     [Tag (py "tr") []
        [Tag (py "th") [] [NavigableString (py "Formed")];
         Tag (py "td") [] [NavigableString june_2_5]]];
   text_tag "p" "It dissipated at sea."].



(** A storm without a table of its own, followed by two storms that each
    have one. *)
Definition three_storms_page : list node :=
  [h3 "Tropical Storm One"; text_tag "p" "It dissipated at sea.";
   h3 "Hurricane Two"; infobox_duration june_2_5;
   h3 "Hurricane Three"; infobox_duration august_12_18].

(** A page none of whose headings names a storm. *)
Definition plain_page : list node :=
  [text_tag "h2" "Season summary"; text_tag "h3" "Notes";
   text_tag "p" "The storm killed 15 people."].


(** A storm whose only paragraph with a death cue stands inside a [div]. *)
Definition nested_page : list node :=
  [Tag (py "h3") [] [NavigableString (py "Hurricane Lily")];
   NavigableString (py " ");
   Tag (py "div") [] [Tag (py "p") [] [NavigableString (py "The storm killed 15 people.")]];
   Tag (py "p") [] [NavigableString (py "It dissipated at sea.")]].

(** A storm whose first infobox table has no "Duration" row, while a later
    table has one. *)
Definition two_tables_page : list node :=
  [Tag (py "h3") [] [NavigableString (py "Hurricane Lily")];
   Tag (py "table") [py "infobox"]
     [Tag (py "tr") []
        [Tag (py "th") [] [NavigableString (py "Formed")];
         Tag (py "td") [] [NavigableString june_2_5]]];
   Tag (py "table") [py "infobox"]
     [Tag (py "tr") []
        [Tag (py "th") [] [NavigableString (py "Duration")];
         Tag (py "td") [] [NavigableString june_2_5]]]].

(** A paragraph with a citation mark. *)
Definition cited_page : list node :=
  [Tag (py "h3") [] [NavigableString (py "Hurricane Lily")];
   Tag (py "p") []
     [NavigableString (py "The storm killed 15");
      Tag (py "sup") [py "reference"] [NavigableString (py "[4]")];
      NavigableString (py " people.")]].

(** * Properties *)

Lemma str_eqb_eq (a b : str) : str_eqb a b = true <-> a = b.
Proof.
  revert b; induction a as [|x a IH]; intros [|y b]; simpl;
    try (split; [discriminate | discriminate]); try tauto.
  rewrite andb_true_iff, N.eqb_eq, IH.
  split; [intros [-> ->]; reflexivity | intros E; injection E; auto].
Qed.

Lemma str_eqb_refl (a : str) : str_eqb a a = true.
Proof. apply str_eqb_eq; reflexivity. Qed.

(** ** The string functions and the patterns on examples *)

Example heading_text_without_edit_marker :
  replace (py "[edit]") [] (py "Hurricane Agatha[edit]") = py "Hurricane Agatha".
Proof. reflexivity. Qed.

Example strip_example (U : unicode_db) :
  strip U (py "  June 2  ") = py "June 2".
Proof. reflexivity. Qed.

Example date_with_hyphen (U : unicode_db) :
  date_search U (py "June 2-June 5") = Some [(2, py "June 5"); (1, py "June 2")].
Proof. vm_compute. reflexivity. Qed.

Example date_needs_two_days (U : unicode_db) :
  date_search U (py "June 2, 1975") = None.
Proof. vm_compute. reflexivity. Qed.

Example death_cue_in_capitals (U : unicode_db) :
  option_map (group 1) (death_search U (py "Flooding KILLED   12 persons."))
  = Some (py "12").
Proof. vm_compute. reflexivity. Qed.

Example death_cue_needs_digits (U : unicode_db) :
  death_search U (py "The storm killed several people.") = None.
Proof. vm_compute. reflexivity. Qed.

Example proper_nouns_of_a_sentence (U : unicode_db) :
  proper_nouns U (py "Olivia struck Baja California Sur and San Diego.")
  = [py "Olivia"; py "Baja California Sur"; py "San Diego"].
Proof. vm_compute. reflexivity. Qed.

Section Frame.
Variable U : unicode_db.

Lemma scan_text_frame text l : same_heading_fields l (scan_text U text l).
Proof. repeat split. Qed.

Lemma sibling_walk_frame sibs :
  forall l, same_heading_fields l (sibling_walk U sibs l).
Proof.
  induction sibs as [|n rest IH]; intros l; [repeat split|].
  destruct n as [s|s|name cls cs]; cbn [sibling_walk]; auto.
  destruct (str_eqb name (py "h3") || str_eqb name (py "h4"));
    [repeat split|].
  destruct (str_eqb name (py "p")); auto.
  destruct (IH (scan_text U (paragraph_text U (Tag name cls cs)) l))
    as (Hn & Hs & He).
  unfold same_heading_fields; rewrite Hn, Hs, He; repeat split.
Qed.

Lemma olivia_override_frame l : same_heading_fields l (olivia_override U l).
Proof. unfold olivia_override; destruct (is_olivia U _); repeat split. Qed.

Lemma find_duration_frame heading l :
  same_walk_fields l (find_duration U heading l).
Proof.
  unfold find_duration.
  destruct (find_next _ _ heading) as [infobox|]; [|repeat split].
  destruct (find_text _ _ infobox) as [row|]; [|repeat split].
  destruct (find_next_sibling_named _ (snd row)) as [td|]; [|repeat split].
  simpl; destruct (date_search U _); repeat split.
Qed.

Lemma extracted_name heading :
  hurricane_name (extracted U heading) = heading_name U heading.
Proof.
  unfold extracted.
  destruct (olivia_override_frame
              (sibling_walk U (el_next_siblings heading)
                 (find_duration U heading (initial_locals U heading))))
    as (-> & _).
  destruct (sibling_walk_frame (el_next_siblings heading)
              (find_duration U heading (initial_locals U heading)))
    as (-> & _).
  destruct (find_duration_frame heading (initial_locals U heading))
    as (-> & _).
  reflexivity.
Qed.

Lemma extracted_dates heading :
  date_start (extracted U heading)
  = date_start (find_duration U heading (initial_locals U heading)) /\
  date_end (extracted U heading)
  = date_end (find_duration U heading (initial_locals U heading)).
Proof.
  unfold extracted.
  destruct (olivia_override_frame
              (sibling_walk U (el_next_siblings heading)
                 (find_duration U heading (initial_locals U heading))))
    as (_ & -> & ->).
  destruct (sibling_walk_frame (el_next_siblings heading)
              (find_duration U heading (initial_locals U heading)))
    as (_ & -> & ->).
  split; reflexivity.
Qed.

(** The loop over the headings appends the record of each storm heading,
    in order. *)
Lemma process_headings_appends headings :
  forall t,
    process_headings U headings t
    = fold_left (fun t l => append_record l t)
        (map (extracted U) (filter (names_a_storm U) headings)) t.
Proof.
  induction headings as [|h rest IH]; intros t; simpl; [reflexivity|].
  rewrite IH. destruct (names_a_storm U h); reflexivity.
Qed.

Lemma appended_columns ls :
  forall t,
    let t' := fold_left (fun t l => append_record l t) ls t in
    hurricane_names t' = hurricane_names t ++ map hurricane_name ls /\
    start_dates t' = start_dates t ++ map date_start ls /\
    end_dates t' = end_dates t ++ map date_end ls /\
    deaths t' = deaths t ++ map hurricane_deaths ls /\
    areas_affected t' = areas_affected t ++ map joined_areas ls.
Proof.
  induction ls as [|l ls IH]; intros t; simpl.
  - repeat split; symmetry; apply app_nil_r.
  - destruct (IH (append_record l t)) as (Hn & Hs & He & Hd & Ha).
    rewrite Hn, Hs, He, Hd, Ha; simpl.
    repeat split; rewrite <- app_assoc; reflexivity.
Qed.

End Frame.

(** C1. For every page, the names column of the result lists the names of
    the storm headings (the [h3] tags whose text without "[edit]" contains
    "hurricane" or "storm" once lowered) in document order, one entry per
    heading; every other column lists the corresponding value extracted at
    each of these headings; and the five columns all have as many entries
    as there are storm headings. *)
Theorem one_record_per_storm_heading (U : unicode_db) (page : list node) :
  let storms := storm_headings U page in
  let t := scrape U page in
  (hurricane_names t = map (heading_name U) storms /\
   start_dates t = map (fun h => date_start (extracted U h)) storms /\
   end_dates t = map (fun h => date_end (extracted U h)) storms /\
   deaths t = map (fun h => hurricane_deaths (extracted U h)) storms /\
   areas_affected t = map (fun h => joined_areas (extracted U h)) storms) /\
  (length (hurricane_names t) = length storms /\
   length (start_dates t) = length storms /\
   length (end_dates t) = length storms /\
   length (deaths t) = length storms /\
   length (areas_affected t) = length storms).
Proof.
  intros storms t.
  assert (Hcols :
    hurricane_names t = map (heading_name U) storms /\
    start_dates t = map (fun h => date_start (extracted U h)) storms /\
    end_dates t = map (fun h => date_end (extracted U h)) storms /\
    deaths t = map (fun h => hurricane_deaths (extracted U h)) storms /\
    areas_affected t = map (fun h => joined_areas (extracted U h)) storms).
  { subst t storms. unfold scrape, storm_headings.
    rewrite process_headings_appends.
    destruct (appended_columns
                (map (extracted U)
                   (filter (names_a_storm U)
                      (find_all (py "h3") (soup_of page)))) empty_table)
      as (Hn & Hs & He & Hd & Ha).
    rewrite Hn, Hs, He, Hd, Ha; simpl.
    rewrite !map_map.
    repeat split.
    apply map_ext; intros h; apply extracted_name. }
  split; [exact Hcols|].
  destruct Hcols as (Hn & Hs & He & Hd & Ha).
  rewrite Hn, Hs, He, Hd, Ha, !length_map.
  repeat split.
Qed.

(** ** The sibling walk *)

Section Walk.
Variable U : unicode_db.

(** The walk scans the paragraphs of the heading's section, in order, and
    nothing else. *)
Lemma sibling_walk_scans_section sibs :
  forall l, sibling_walk U sibs l = scan_all U (section_texts U sibs) l.
Proof.
  unfold scan_all, section_texts.
  induction sibs as [|n rest IH]; intros l; [reflexivity|].
  destruct n as [s|s|name cls cs]; cbn [sibling_walk section_siblings];
    try (rewrite IH; reflexivity).
  unfold is_stop; cbn [is_tag].
  destruct (str_eqb name (py "h3") || str_eqb name (py "h4")); [reflexivity|].
  cbn [filter is_tag].
  destruct (str_eqb name (py "p")); rewrite IH; reflexivity.
Qed.

Lemma scan_all_no_cue texts :
  Forall (fun text => death_search U text = None) texts ->
  forall l, hurricane_deaths (scan_all U texts l) = hurricane_deaths l.
Proof.
  unfold scan_all.
  induction 1 as [|text texts Hnone _ IH]; intros l; simpl; [reflexivity|].
  rewrite IH. unfold scan_text; simpl. rewrite Hnone. reflexivity.
Qed.

Lemma scan_all_last_cue before text after m :
  death_search U text = Some m ->
  Forall (fun text => death_search U text = None) after ->
  forall l, hurricane_deaths (scan_all U (before ++ text :: after) l) = group 1 m.
Proof.
  intros Hm Hafter l. unfold scan_all.
  rewrite fold_left_app. simpl.
  change (hurricane_deaths
            (scan_all U after (scan_text U text (fold_left (fun l t => scan_text U t l) before l)))
          = group 1 m).
  rewrite scan_all_no_cue by assumption.
  unfold scan_text; simpl. rewrite Hm. reflexivity.
Qed.

Lemma override_not_olivia l :
  is_olivia U (hurricane_name l) = false -> olivia_override U l = l.
Proof. unfold olivia_override. intros ->. reflexivity. Qed.

(** The name the override tests is the heading's. *)
Lemma walked_name heading :
  hurricane_name
    (sibling_walk U (el_next_siblings heading)
       (find_duration U heading (initial_locals U heading)))
  = heading_name U heading.
Proof.
  destruct (sibling_walk_frame U (el_next_siblings heading)
              (find_duration U heading (initial_locals U heading)))
    as (-> & _).
  destruct (find_duration_frame U heading (initial_locals U heading))
    as (-> & _).
  reflexivity.
Qed.

(** The death count a heading that is not the overridden one ends with. *)
Lemma extracted_deaths heading :
  is_olivia U (heading_name U heading) = false ->
  hurricane_deaths (extracted U heading)
  = hurricane_deaths
      (scan_all U (section_texts U (el_next_siblings heading))
         (initial_locals U heading)).
Proof.
  intros Hno. unfold extracted.
  rewrite override_not_olivia by (rewrite walked_name; exact Hno).
  rewrite sibling_walk_scans_section.
  revert Hno; generalize (section_texts U (el_next_siblings heading)).
  intros texts _.
  destruct (find_duration_frame U heading (initial_locals U heading))
    as (_ & Hd & _).
  revert Hd.
  generalize (find_duration U heading (initial_locals U heading)).
  generalize (initial_locals U heading).
  unfold scan_all.
  induction texts as [|text texts IH]; intros l l' Hd; simpl; [exact Hd|].
  apply IH. unfold scan_text; simpl. rewrite Hd. reflexivity.
Qed.

End Walk.

(** ** Death counts *)

(** C2, as amended. A heading whose name does not contain "olivia" and none
    of whose section's paragraphs holds a death cue gets the death count
    "0", the value [hurricane_deaths] is initialised with; the placeholder
    "-" is used for the dates and the areas only. *)
Theorem no_death_cue_gives_zero (U : unicode_db) (heading : element) :
  is_olivia U (heading_name U heading) = false ->
  Forall (fun text => death_search U text = None)
    (section_texts U (el_next_siblings heading)) ->
  hurricane_deaths (extracted U heading) = py "0" /\
  forall t, deaths (process_hurricane U heading t) = deaths t ++ [py "0"].
Proof.
  intros Hno Hnone.
  assert (H0 : hurricane_deaths (extracted U heading) = py "0").
  { rewrite extracted_deaths by exact Hno.
    rewrite scan_all_no_cue by exact Hnone.
    reflexivity. }
  split; [exact H0|].
  intros t. unfold process_hurricane, append_record; simpl.
  rewrite H0. reflexivity.
Qed.

Lemma no_death_cue_gives_zero_witness :
  is_olivia basic_latin (heading_name basic_latin (heading_at 0 quiet_page)) = false /\
  Forall (fun text => death_search basic_latin text = None)
    (section_texts basic_latin (el_next_siblings (heading_at 0 quiet_page))) /\
  hurricane_deaths (extracted basic_latin (heading_at 0 quiet_page)) = py "0".
Proof.
  assert (Hno : is_olivia basic_latin
                  (heading_name basic_latin (heading_at 0 quiet_page)) = false)
    by (vm_compute; reflexivity).
  assert (Hnone : Forall (fun text => death_search basic_latin text = None)
            (section_texts basic_latin
               (el_next_siblings (heading_at 0 quiet_page))))
    by (repeat constructor).
  split; [exact Hno|]. split; [exact Hnone|].
  exact (proj1 (no_death_cue_gives_zero basic_latin (heading_at 0 quiet_page)
                  Hno Hnone)).
Defined.

(** C2, the claim as stated fails: the only paragraph of the storm of
    [quiet_page] holds no death cue, and its death count is "0", not "-". *)
Lemma no_death_cue_is_not_dash :
  map (heading_name basic_latin) (storm_headings basic_latin quiet_page)
  = [py "Tropical Storm One"] /\
  section_texts basic_latin (el_next_siblings (heading_at 0 quiet_page))
  = [py "It dissipated at sea."] /\
  death_search basic_latin (py "It dissipated at sea.") = None /\
  deaths (scrape basic_latin quiet_page) = [py "0"] /\
  deaths (scrape basic_latin quiet_page) <> [py "-"].
Proof.
  repeat split; try (vm_compute; reflexivity).
  vm_compute. discriminate.
Qed.

(** ** Dates *)

Lemma find_duration_none (U : unicode_db) (heading : element) (l : locals) :
  (forall n, In n (el_next_elements heading) -> is_infobox n = true ->
             find_text (py "th") (py "Duration") n = None) ->
  find_duration U heading l = l.
Proof.
  intros Hnone. unfold find_duration, find_next.
  destruct (find _ (el_next_elements heading)) as [infobox|] eqn:Hfind;
    [|reflexivity].
  apply find_some in Hfind. destruct Hfind as [Hin Hbox].
  rewrite (Hnone infobox Hin Hbox). reflexivity.
Qed.

(** When no infobox table among the elements that follow the heading in
    the document has a [th] whose string is "Duration", both dates are
    "-". *)
Lemma no_duration_row_gives_dashes (U : unicode_db) (heading : element) :
  (forall n, In n (el_next_elements heading) -> is_infobox n = true ->
             find_text (py "th") (py "Duration") n = None) ->
  date_start (extracted U heading) = py "-" /\
  date_end (extracted U heading) = py "-".
Proof.
  intros Hnone.
  destruct (extracted_dates U heading) as [-> ->].
  rewrite find_duration_none by exact Hnone.
  split; reflexivity.
Qed.

Lemma no_duration_row_gives_dashes_witness :
  existsb is_infobox (el_next_elements (heading_at 0 formed_page)) = true /\
  date_start (extracted basic_latin (heading_at 0 formed_page)) = py "-" /\
  date_end (extracted basic_latin (heading_at 0 formed_page)) = py "-".
Proof.
  split; [vm_compute; reflexivity|].
  apply (no_duration_row_gives_dashes basic_latin (heading_at 0 formed_page)).
  intros n Hin.
  vm_compute in Hin.
  repeat (destruct Hin as [<- | Hin];
          [intros Hbox;
           first [vm_compute in Hbox; discriminate | vm_compute; reflexivity]|]).
  contradiction.
Defined.

Lemma find_first {A : Type} (f : A -> bool) (before after : list A) (x : A) :
  Forall (fun y => f y = false) before ->
  f x = true ->
  find f (before ++ x :: after) = Some x.
Proof.
  intros Hbefore Hx.
  induction Hbefore as [|y before Hy _ IH]; simpl.
  - rewrite Hx. reflexivity.
  - rewrite Hy. exact IH.
Qed.

(** The dates of a heading are those of the table [find_next] returns. *)
Lemma dates_of_the_found_infobox (U : unicode_db) (heading : element)
    (infobox : node) :
  find_next (py "table") (py "infobox") heading = Some infobox ->
  (date_start (extracted U heading), date_end (extracted U heading))
  = match duration_dates U infobox with
    | Some dates => dates
    | None => (py "-", py "-")
    end.
Proof.
  intros Hfound.
  destruct (extracted_dates U heading) as [-> ->].
  unfold find_duration, duration_dates. rewrite Hfound.
  destruct (find_text _ _ infobox) as [row|]; [|reflexivity].
  destruct (find_next_sibling_named _ (snd row)) as [td|]; [|reflexivity].
  cbv zeta. destruct (date_search U _); reflexivity.
Qed.

(** C3, as amended. When no infobox table among the elements that follow
    the heading in the document, up to the end of the document and not only
    up to the next heading, has a [th] whose string is "Duration", both
    dates are "-".  And whatever section it stands in, the table consulted
    is the first infobox table that follows the heading in the document:
    the dates of the heading are the dates the "Duration" row of that table
    gives, or "-" when it gives none; so a heading without a table of its
    own gets the dates of the first infobox table after it. *)
Theorem dates_are_read_from_the_first_infobox (U : unicode_db)
    (heading : element) :
  ((forall n, In n (el_next_elements heading) -> is_infobox n = true ->
              find_text (py "th") (py "Duration") n = None) ->
   date_start (extracted U heading) = py "-" /\
   date_end (extracted U heading) = py "-") /\
  (forall before infobox after,
      el_next_elements heading = before ++ infobox :: after ->
      Forall (fun n => is_infobox n = false) before ->
      is_infobox infobox = true ->
      find_next (py "table") (py "infobox") heading = Some infobox /\
      (date_start (extracted U heading), date_end (extracted U heading))
      = match duration_dates U infobox with
        | Some dates => dates
        | None => (py "-", py "-")
        end).
Proof.
  split.
  - apply no_duration_row_gives_dashes.
  - intros before infobox after Hnext Hbefore Hbox.
    assert (Hfound : find_next (py "table") (py "infobox") heading
                     = Some infobox).
    { unfold find_next. rewrite Hnext.
      apply (find_first is_infobox); assumption. }
    split; [exact Hfound|].
    apply dates_of_the_found_infobox. exact Hfound.
Qed.

(** C3 at the first storm of [three_storms_page]: it has no table of its
    own, two infobox tables follow it, and its dates are those of the first
    of the two. *)
Lemma dates_are_read_from_the_first_infobox_witness :
  existsb is_infobox
    (section_nodes (el_next_siblings (heading_at 0 three_storms_page))) = false /\
  filter is_infobox (el_next_elements (heading_at 0 three_storms_page))
  = [infobox_duration june_2_5; infobox_duration august_12_18] /\
  date_start (extracted basic_latin (heading_at 0 three_storms_page)) = py "June 2" /\
  date_end (extracted basic_latin (heading_at 0 three_storms_page)) = py "June 5".
Proof.
  split; [vm_compute; reflexivity|].
  split; [vm_compute; reflexivity|].
  destruct (proj2 (dates_are_read_from_the_first_infobox basic_latin
                     (heading_at 0 three_storms_page))
              (firstn 11 (el_next_elements (heading_at 0 three_storms_page)))
              (infobox_duration june_2_5)
              (skipn 12 (el_next_elements (heading_at 0 three_storms_page))))
    as [_ Hdates].
  - vm_compute. reflexivity.
  - vm_compute. repeat constructor.
  - vm_compute. reflexivity.
  - assert (Hrow : duration_dates basic_latin (infobox_duration june_2_5)
                   = Some (py "June 2", py "June 5"))
      by (vm_compute; reflexivity).
    rewrite Hrow in Hdates.
    split; [exact (f_equal fst Hdates) | exact (f_equal snd Hdates)].
Defined.

(** C3, the claim as stated fails: the first storm of [neighbour_page] has
    no infobox table in its own section, and its dates are those of the
    table of the storm after it. *)
Lemma dates_of_the_next_storm :
  existsb is_infobox
    (section_nodes (el_next_siblings (heading_at 0 neighbour_page))) = false /\
  map (heading_name basic_latin) (storm_headings basic_latin neighbour_page)
  = [py "Tropical Storm One"; py "Hurricane Two"] /\
  start_dates (scrape basic_latin neighbour_page) = [py "June 2"; py "June 2"] /\
  end_dates (scrape basic_latin neighbour_page) = [py "June 5"; py "June 5"] /\
  date_start (extracted basic_latin (heading_at 0 neighbour_page)) <> py "-".
Proof.
  repeat split; try (vm_compute; reflexivity).
  vm_compute. discriminate.
Qed.

(** ** Where the walk stops *)

Lemma section_siblings_stop (before after : list node) (stop : node) :
  is_stop stop = true ->
  section_siblings (before ++ stop :: after) = section_siblings before.
Proof.
  intros Hstop. induction before as [|n before IH]; simpl.
  - rewrite Hstop. reflexivity.
  - destruct (is_stop n); [reflexivity|]. rewrite IH. reflexivity.
Qed.

(** C4, as amended. The walk stops at the first following sibling tag
    named [h3] or [h4] alike: whatever stands after such a tag, paragraphs
    included, is not scanned and leaves the result of the walk unchanged. *)
Theorem walk_stops_at_h3_and_h4 (U : unicode_db)
    (before after : list node) (name : str) (cls : list str)
    (cs : list node) (l : locals) :
  name = py "h3" \/ name = py "h4" ->
  sibling_walk U (before ++ Tag name cls cs :: after) l
  = sibling_walk U before l.
Proof.
  intros Hname.
  rewrite !sibling_walk_scans_section. unfold section_texts.
  rewrite section_siblings_stop; [reflexivity|].
  unfold is_stop; simpl.
  destruct Hname as [-> | ->]; vm_compute; reflexivity.
Qed.

Lemma walk_stops_at_h3_and_h4_witness :
  sibling_walk basic_latin
    ([text_tag "p" "Floods caused 7 deaths in Mexico."]
       ++ text_tag "h3" "Notes" :: [text_tag "p" "The storm killed 15 people."])
    (initial_locals basic_latin (heading_at 0 notes_page))
  = sibling_walk basic_latin [text_tag "p" "Floods caused 7 deaths in Mexico."]
      (initial_locals basic_latin (heading_at 0 notes_page)).
Proof.
  apply (walk_stops_at_h3_and_h4 basic_latin
           [text_tag "p" "Floods caused 7 deaths in Mexico."]
           [text_tag "p" "The storm killed 15 people."]
           (py "h3") [] [NavigableString (py "Notes")]).
  left; reflexivity.
Defined.

(** C4, the claim as stated fails: in [notes_page] the paragraph after the
    [h3] tag that follows the storm's heading holds a death cue, and it is
    not scanned; the storm's death count stays "0". *)
Lemma paragraph_after_h3_is_not_scanned :
  el_next_siblings (heading_at 0 notes_page)
  = [text_tag "h3" "Notes"; text_tag "p" "The storm killed 15 people."] /\
  death_search basic_latin
    (paragraph_text basic_latin (text_tag "p" "The storm killed 15 people."))
  = Some [(1, py "15")] /\
  section_texts basic_latin (el_next_siblings (heading_at 0 notes_page)) = [] /\
  map (heading_name basic_latin) (storm_headings basic_latin notes_page)
  = [py "Hurricane Agatha"] /\
  deaths (scrape basic_latin notes_page) = [py "0"].
Proof.
  repeat split; vm_compute; reflexivity.
Qed.

(** ** Which death cue is kept *)

(** C5, as amended. For a heading whose name does not contain "olivia",
    the death count is the first group of the match in the last paragraph
    of the section that holds a death cue; with the one paragraph
    "The storm killed 15 people in Sinaloa." it is "15".  (A heading whose
    name contains "olivia" gets "30" whatever its paragraphs say.) *)
Theorem last_death_cue_wins (U : unicode_db) (heading : element) :
  is_olivia U (heading_name U heading) = false ->
  (forall before text after m,
      section_texts U (el_next_siblings heading) = before ++ text :: after ->
      death_search U text = Some m ->
      Forall (fun text' => death_search U text' = None) after ->
      hurricane_deaths (extracted U heading) = group 1 m) /\
  (section_texts U (el_next_siblings heading)
   = [py "The storm killed 15 people in Sinaloa."] ->
   hurricane_deaths (extracted U heading) = py "15").
Proof.
  intros Hno.
  assert (Hlast : forall before text after m,
      section_texts U (el_next_siblings heading) = before ++ text :: after ->
      death_search U text = Some m ->
      Forall (fun text' => death_search U text' = None) after ->
      hurricane_deaths (extracted U heading) = group 1 m).
  { intros before text after m Htexts Hm Hafter.
    rewrite extracted_deaths by exact Hno.
    rewrite Htexts.
    apply scan_all_last_cue; assumption. }
  split; [exact Hlast|].
  intros Hone.
  apply (Hlast [] (py "The storm killed 15 people in Sinaloa.") []
           [(1, py "15")] Hone).
  - vm_compute. reflexivity.
  - constructor.
Qed.

Lemma last_death_cue_wins_witness :
  section_texts basic_latin (el_next_siblings (heading_at 0 lily_page))
  = [py "Floods caused 7 deaths in Mexico."]
      ++ py "The storm killed 15 people in Sinaloa."
      :: [py "It dissipated at sea."] /\
  death_search basic_latin (py "Floods caused 7 deaths in Mexico.")
  = Some [(1, py "7")] /\
  hurricane_deaths (extracted basic_latin (heading_at 0 lily_page)) = py "15".
Proof.
  assert (Htexts :
    section_texts basic_latin (el_next_siblings (heading_at 0 lily_page))
    = [py "Floods caused 7 deaths in Mexico."]
        ++ py "The storm killed 15 people in Sinaloa."
        :: [py "It dissipated at sea."]) by (vm_compute; reflexivity).
  split; [exact Htexts|]. split; [vm_compute; reflexivity|].
  refine (proj1 (last_death_cue_wins basic_latin (heading_at 0 lily_page) _)
            _ _ _ [(1, py "15")] Htexts _ _).
  - vm_compute. reflexivity.
  - vm_compute. reflexivity.
  - repeat constructor.
Defined.

(** C5, the claim as stated fails: the one paragraph of the storm of
    [olivia_page] holds the death cue "killed 15", and the death count of
    the storm is "30". *)
Lemma olivia_ignores_the_death_cue :
  map (heading_name basic_latin) (storm_headings basic_latin olivia_page)
  = [py "Hurricane Olivia"] /\
  section_texts basic_latin (el_next_siblings (heading_at 0 olivia_page))
  = [py "The storm killed 15 people in Sinaloa."] /\
  option_map (group 1)
    (death_search basic_latin (py "The storm killed 15 people in Sinaloa."))
  = Some (py "15") /\
  deaths (scrape basic_latin olivia_page) = [py "30"] /\
  deaths (scrape basic_latin olivia_page) <> [py "15"].
Proof.
  repeat split; try (vm_compute; reflexivity).
  vm_compute. discriminate.
Qed.

(** ** The matcher on the date pattern *)

Section MatcherFacts.
Variable U : unicode_db.
Variable ignorecase : bool.

Lemma star_rounds_step a k n s g :
  star_rounds U ignorecase a k (S n) s g
  = match rematch U ignorecase a s g
            (fun s1 g1 =>
               if Nat.ltb (length s1) (length s)
               then star_rounds U ignorecase a k n s1 g1 else None) with
    | Some m => Some m
    | None => k s g
    end.
Proof. reflexivity. Qed.

Lemma rematch_star a s g k :
  rematch U ignorecase (Star a) s g k = star_rounds U ignorecase a k (S (length s)) s g.
Proof. reflexivity. Qed.

Lemma rematch_seq a b s g k :
  rematch U ignorecase (Seq a b) s g k
  = rematch U ignorecase a s g (fun s1 g1 => rematch U ignorecase b s1 g1 k).
Proof. reflexivity. Qed.

Lemma rematch_group i a s g k :
  rematch U ignorecase (Group i a) s g k
  = rematch U ignorecase a s g
      (fun s1 g1 => k s1 ((i, firstn (length s - length s1) s) :: g1)).
Proof. reflexivity. Qed.






Lemma firstn_matched (matched rest : str) :
  firstn (length (matched ++ rest) - length rest) (matched ++ rest) = matched.
Proof.
  rewrite length_app.
  replace (length matched + length rest - length rest) with (length matched + 0)
    by lia.
  rewrite firstn_app_2. simpl. apply app_nil_r.
Qed.

End MatcherFacts.




(** No match of the pattern starts at a character that is not a word
    character. *)
Lemma date_pattern_needs_word (U : unicode_db) (c : codepoint) (s : str) :
  isword U c = false -> match_here U false date_pattern (c :: s) = None.
Proof.
  intros Hc. unfold match_here, date_pattern, month_day, Plus.
  cbn [rematch in_charset]. rewrite Hc. reflexivity.
Qed.

Lemma date_search_skips (U : unicode_db) (pre s : str) :
  Forall (fun c => isword U c = false) pre ->
  date_search U (pre ++ s) = date_search U s.
Proof.
  unfold date_search.
  induction 1 as [|c pre Hc _ IH]; [reflexivity|].
  cbn [app search]. rewrite date_pattern_needs_word by exact Hc.
  exact IH.
Qed.


(** Characters that are no word characters start no match of the date
    pattern. *)
Lemma no_date_before_a_word (U : unicode_db) (pre rest : str) :
  Forall (fun c => isword U c = false) pre ->
  no_match_before U false date_pattern pre rest = true.
Proof.
  induction 1 as [|c pre Hc _ IH]; [reflexivity|].
  cbn [no_match_before].
  change ((c :: pre) ++ rest) with (c :: (pre ++ rest)).
  rewrite date_pattern_needs_word by exact Hc.
  exact IH.
Qed.


(** ** The "Duration" cell *)




(** ** The override *)

(** C6. A heading whose name, lowered, contains "olivia" gets the death
    count "30" and the one area "Sinaloa, Mexico", written to the table as
    "Sinaloa, Mexico", whatever the table after it and its paragraphs
    hold. *)
Theorem olivia_is_overridden (U : unicode_db) (heading : element) :
  is_olivia U (heading_name U heading) = true ->
  hurricane_deaths (extracted U heading) = py "30" /\
  hurricane_affected_areas (extracted U heading) = [py "Sinaloa, Mexico"] /\
  forall t,
    deaths (process_hurricane U heading t) = deaths t ++ [py "30"] /\
    areas_affected (process_hurricane U heading t)
    = areas_affected t ++ [py "Sinaloa, Mexico"].
Proof.
  intros Holivia.
  assert (Hover :
    extracted U heading
    = let l := sibling_walk U (el_next_siblings heading)
                 (find_duration U heading (initial_locals U heading)) in
      {| hurricane_name := hurricane_name l;
         date_start := date_start l;
         date_end := date_end l;
         hurricane_deaths := py "30";
         hurricane_affected_areas := [py "Sinaloa, Mexico"] |}).
  { unfold extracted, olivia_override.
    rewrite walked_name, Holivia. reflexivity. }
  split; [rewrite Hover; reflexivity|].
  split; [rewrite Hover; reflexivity|].
  intros t. unfold process_hurricane, append_record, joined_areas.
  rewrite Hover. split; reflexivity.
Qed.

Lemma olivia_is_overridden_witness :
  section_texts basic_latin (el_next_siblings (heading_at 0 olivia_page))
  = [py "The storm killed 15 people in Sinaloa."] /\
  hurricane_deaths (extracted basic_latin (heading_at 0 olivia_page)) = py "30" /\
  hurricane_affected_areas (extracted basic_latin (heading_at 0 olivia_page))
  = [py "Sinaloa, Mexico"].
Proof.
  split; [vm_compute; reflexivity|].
  assert (Holivia :
    is_olivia basic_latin
      (heading_name basic_latin (heading_at 0 olivia_page)) = true)
    by (vm_compute; reflexivity).
  destruct (olivia_is_overridden basic_latin (heading_at 0 olivia_page) Holivia)
    as (Hd & Ha & _).
  split; [exact Hd | exact Ha].
Defined.

(** C10. At a heading whose name, lowered, contains "olivia", the override
    changes the death count and the areas only: the name and the two dates
    are after it what they were before it, the name being the heading's
    and the dates those the "Duration" lookup found. *)
Theorem olivia_override_keeps_name_and_dates (U : unicode_db) (heading : element) :
  is_olivia U (heading_name U heading) = true ->
  let found := find_duration U heading (initial_locals U heading) in
  let walked := sibling_walk U (el_next_siblings heading) found in
  same_heading_fields walked (extracted U heading) /\
  hurricane_name (extracted U heading) = heading_name U heading /\
  date_start (extracted U heading) = date_start found /\
  date_end (extracted U heading) = date_end found /\
  forall t,
    hurricane_names (process_hurricane U heading t)
    = hurricane_names t ++ [heading_name U heading] /\
    start_dates (process_hurricane U heading t)
    = start_dates t ++ [date_start found] /\
    end_dates (process_hurricane U heading t)
    = end_dates t ++ [date_end found].
Proof.
  intros _ found walked.
  pose proof (olivia_override_frame U walked) as Hframe.
  pose proof (extracted_name U heading) as Hname.
  destruct (extracted_dates U heading) as [Hstart Hend].
  fold found in Hstart, Hend.
  split; [exact Hframe|].
  split; [exact Hname|].
  split; [exact Hstart|].
  split; [exact Hend|].
  intros t. unfold process_hurricane, append_record; simpl.
  rewrite Hname, Hstart, Hend. repeat split.
Qed.

Lemma olivia_override_keeps_name_and_dates_witness :
  hurricane_name (extracted basic_latin (heading_at 0 olivia_page))
  = py "Hurricane Olivia" /\
  date_start (extracted basic_latin (heading_at 0 olivia_page)) = py "August 12" /\
  date_end (extracted basic_latin (heading_at 0 olivia_page)) = py "August 18" /\
  hurricane_deaths (extracted basic_latin (heading_at 0 olivia_page)) = py "30".
Proof.
  assert (Holivia :
    is_olivia basic_latin
      (heading_name basic_latin (heading_at 0 olivia_page)) = true)
    by (vm_compute; reflexivity).
  destruct (olivia_override_keeps_name_and_dates basic_latin
              (heading_at 0 olivia_page) Holivia)
    as (_ & Hn & Hs & He & _).
  rewrite Hn, Hs, He.
  repeat split; vm_compute; reflexivity.
Defined.

(** ** The area filter *)

Lemma keyword_filter (U : unicode_db) (text : str) (locations : list str) :
  filter (fun _ => any_keyword U text) locations
  = if any_keyword U text then locations else [].
Proof.
  destruct (any_keyword U text).
  - induction locations as [|x xs IH]; simpl; [|rewrite IH]; reflexivity.
  - induction locations as [|x xs IH]; simpl; [|rewrite IH]; reflexivity.
Qed.

Lemma extract_affected_areas_all (U : unicode_db) (text : str) :
  extract_affected_areas U text = findall U false proper_noun_pattern text.
Proof.
  unfold extract_affected_areas; cbv zeta.
  rewrite keyword_filter.
  destruct (any_keyword U text); [|reflexivity].
  destruct (is_empty _); reflexivity.
Qed.

(** C8. The keyword test of the area filter looks at the whole lowered
    paragraph, not at the match it is asked about: when a keyword occurs in
    the paragraph the filter keeps every proper-noun match, when none does
    it keeps no match and the function falls back on all of them. *)
Theorem keyword_gate_is_paragraph_scoped (U : unicode_db) (text : str) :
  let locations := findall U false proper_noun_pattern text in
  let relevant_locations := filter (fun _ => any_keyword U text) locations in
  (any_keyword U text = true ->
   relevant_locations = locations /\
   extract_affected_areas U text = locations) /\
  (any_keyword U text = false ->
   relevant_locations = [] /\
   extract_affected_areas U text = locations).
Proof.
  intros locations relevant_locations.
  subst relevant_locations. rewrite keyword_filter.
  split; intros Hkey; rewrite Hkey;
    (split; [reflexivity | apply extract_affected_areas_all]).
Qed.

(** C8 at a paragraph where one keyword, "hit", licenses every match, the
    sentence's first word included. *)
Lemma keyword_gate_is_paragraph_scoped_witness :
  any_keyword basic_latin (py "It hit Mexico and later Texas.") = true /\
  extract_affected_areas basic_latin (py "It hit Mexico and later Texas.")
  = [py "It"; py "Mexico"; py "Texas"].
Proof.
  assert (Hkey : any_keyword basic_latin (py "It hit Mexico and later Texas.")
                 = true) by (vm_compute; reflexivity).
  split; [exact Hkey|].
  destruct (keyword_gate_is_paragraph_scoped basic_latin
              (py "It hit Mexico and later Texas.")) as [Hsome _].
  destruct (Hsome Hkey) as [_ ->].
  vm_compute. reflexivity.
Defined.

(** C9. [extract_affected_areas] returns the proper-noun matches of its
    text, all of them and in order: it is the plain matcher. *)
Theorem extract_affected_areas_is_proper_nouns (U : unicode_db) :
  forall text, extract_affected_areas U text = proper_nouns U text.
Proof.
  intros text. unfold proper_nouns.
  pose proof (extract_affected_areas_all U text) as Hall.
  exact Hall.
Qed.

(** ** Further properties of the extraction *)

Lemma scan_all_areas (U : unicode_db) (texts : list str) :
  forall l,
    hurricane_affected_areas (scan_all U texts l)
    = hurricane_affected_areas l ++ concat (map (proper_nouns U) texts).
Proof.
  unfold scan_all.
  induction texts as [|text texts IH]; intros l; simpl.
  - symmetry. apply app_nil_r.
  - rewrite IH. unfold scan_text; cbn [hurricane_affected_areas].
    rewrite extract_affected_areas_all. fold (proper_nouns U text).
    destruct (proper_nouns U text) as [|loc locs]; cbn [is_empty app].
    + reflexivity.
    + rewrite <- app_assoc. reflexivity.
Qed.

(** X1. The walk scans the paragraphs among the heading's following
    siblings up to the first [h3] or [h4] tag, in order, and nothing else. *)
Theorem walk_scans_the_section_paragraphs (U : unicode_db)
    (sibs : list node) (l : locals) :
  sibling_walk U sibs l
  = fold_left (fun l text => scan_text U text l)
      (map (paragraph_text U)
         (filter (is_tag (py "p")) (section_siblings sibs))) l.
Proof.
  rewrite sibling_walk_scans_section. reflexivity.
Qed.

(** X2. For a heading whose name does not contain "olivia", the areas are
    the proper-noun matches of the section's paragraphs, paragraph after
    paragraph, repetitions kept; the table gets them joined by "; ", or "-"
    when there is none. *)
Theorem areas_accumulate_in_order (U : unicode_db) (heading : element) :
  is_olivia U (heading_name U heading) = false ->
  let areas :=
    concat (map (proper_nouns U) (section_texts U (el_next_siblings heading))) in
  hurricane_affected_areas (extracted U heading) = areas /\
  forall t,
    areas_affected (process_hurricane U heading t)
    = areas_affected t
        ++ [if is_empty areas then py "-" else join (py "; ") areas].
Proof.
  intros Hno areas.
  assert (Hareas : hurricane_affected_areas (extracted U heading) = areas).
  { unfold extracted.
    rewrite override_not_olivia by (rewrite walked_name; exact Hno).
    rewrite sibling_walk_scans_section, scan_all_areas.
    destruct (find_duration_frame U heading (initial_locals U heading))
      as (_ & _ & ->).
    reflexivity. }
  split; [exact Hareas|].
  intros t. unfold process_hurricane, append_record, joined_areas; simpl.
  rewrite Hareas. reflexivity.
Qed.

Lemma areas_accumulate_in_order_witness :
  hurricane_affected_areas (extracted basic_latin (heading_at 0 lily_page))
  = [py "Floods"; py "Mexico"; py "The"; py "Sinaloa"; py "It"] /\
  areas_affected (scrape basic_latin lily_page)
  = [py "Floods; Mexico; The; Sinaloa; It"].
Proof.
  assert (Hno : is_olivia basic_latin
                  (heading_name basic_latin (heading_at 0 lily_page)) = false)
    by (vm_compute; reflexivity).
  destruct (areas_accumulate_in_order basic_latin (heading_at 0 lily_page) Hno)
    as [Hareas _].
  split; [rewrite Hareas|]; vm_compute; reflexivity.
Defined.

(** X3. When no [h3] heading of the page names a storm, the five columns
    stay empty. *)
Theorem no_storm_heading_no_row (U : unicode_db) (page : list node) :
  storm_headings U page = [] -> scrape U page = empty_table.
Proof.
  intros Hnone. unfold scrape.
  rewrite process_headings_appends.
  unfold storm_headings in Hnone. rewrite Hnone. reflexivity.
Qed.

Lemma no_storm_heading_no_row_witness :
  length (find_all (py "h3") (soup_of plain_page)) = 1 /\
  scrape basic_latin plain_page = empty_table.
Proof.
  split; [reflexivity|].
  apply (no_storm_heading_no_row basic_latin plain_page).
  vm_compute. reflexivity.
Defined.

(** ** What the matcher returns *)

Section MatcherSound.
Variable U : unicode_db.
Variable ignorecase : bool.
Variable P : nat -> str -> Prop.

Lemma captured_app (new old : groups) :
  captured P new -> captured P old -> captured P (new ++ old).
Proof. unfold captured. intros Hn Ho. apply Forall_app. split; assumption. Qed.

(** The rounds of a repetition, given that one round of [a] is sound. *)
Lemma star_rounds_sound (a : regex)
    (k : str -> groups -> option (str * groups)) (m : str * groups) :
  (forall s g k', rematch U ignorecase a s g k' = Some m ->
     exists w s1 new,
       s = w ++ s1 /\ lang U ignorecase a w /\ captured P new /\
       k' s1 (new ++ g) = Some m) ->
  forall n s g,
    star_rounds U ignorecase a k n s g = Some m ->
    exists w s1 new,
      s = w ++ s1 /\ lang U ignorecase (Star a) w /\ captured P new /\
      k s1 (new ++ g) = Some m.
Proof.
  intros Hround.
  assert (Hstop : forall s g, k s g = Some m ->
            exists w s1 new,
              s = w ++ s1 /\ lang U ignorecase (Star a) w /\ captured P new /\
              k s1 (new ++ g) = Some m).
  { intros s g Hk. exists [], s, []. repeat split; try assumption.
    - exists []. split; [reflexivity | constructor].
    - constructor. }
  induction n as [|n IH]; intros s g H.
  - apply Hstop. exact H.
  - rewrite star_rounds_step in H.
    destruct (rematch U ignorecase a s g _) as [m'|] eqn:Hone.
    + assert (m' = m) by congruence. subst m'.
      destruct (Hround _ _ _ Hone) as (w1 & s1 & new1 & -> & Hw1 & Hc1 & Hk).
      destruct (Nat.ltb _ _); [|discriminate Hk].
      destruct (IH _ _ Hk) as (w2 & s2 & new2 & -> & (ws & -> & Hws) & Hc2 & Hk2).
      exists (w1 ++ concat ws), s2, (new2 ++ new1).
      repeat split.
      * apply app_assoc.
      * exists (w1 :: ws). split; [reflexivity | constructor; assumption].
      * apply captured_app; assumption.
      * rewrite <- app_assoc. exact Hk2.
    + apply Hstop. exact H.
Qed.

(** Soundness of the matcher: when [rematch] succeeds, the pattern has taken
    a word of its language off the front of the string, every group it has
    captured on the way holds a word its group stands for, the groups every
    match passes through are among them, and the continuation has accepted
    what was left. *)
Lemma rematch_sound (r : regex) :
  captures U ignorecase P r ->
  forall s g k m,
    rematch U ignorecase r s g k = Some m ->
    exists w s1 new,
      s = w ++ s1 /\ lang U ignorecase r w /\ captured P new /\
      (forall i, binds i r = true -> In i (map fst new)) /\
      k s1 (new ++ g) = Some m.
Proof.
  induction r as [|cs|a IHa b IHb|a IHa b IHb|a IHa|i a IHa];
    intros Hcap s g k m H.
  - exists [], s, []. repeat split; try assumption; try constructor.
    intros i Hi; discriminate Hi.
  - destruct s as [|c s]; [discriminate H|].
    cbn [rematch] in H.
    destruct (in_charset U ignorecase cs c) eqn:Hc; [|discriminate H].
    exists [c], s, []. repeat split; try assumption; try constructor.
    + exists c. split; [reflexivity | exact Hc].
    + intros i Hi; discriminate Hi.
  - destruct Hcap as [Hcapa Hcapb].
    rewrite rematch_seq in H.
    destruct (IHa Hcapa _ _ _ _ H) as (w1 & s1 & new1 & -> & Hw1 & Hc1 & Hb1 & Hk1).
    destruct (IHb Hcapb _ _ _ _ Hk1) as (w2 & s2 & new2 & -> & Hw2 & Hc2 & Hb2 & Hk2).
    exists (w1 ++ w2), s2, (new2 ++ new1). repeat split.
    + apply app_assoc.
    + exists w1, w2. repeat split; assumption.
    + apply captured_app; assumption.
    + intros i Hi. cbn [binds] in Hi. rewrite map_app. apply in_or_app.
      apply orb_true_iff in Hi. destruct Hi as [Hi|Hi]; [right|left]; auto.
    + rewrite <- app_assoc. exact Hk2.
  - destruct Hcap as [Hcapa Hcapb].
    cbn [rematch] in H.
    destruct (rematch U ignorecase a s g k) as [m'|] eqn:Ha.
    + assert (m' = m) by congruence. subst m'.
      destruct (IHa Hcapa _ _ _ _ Ha) as (w & s1 & new & -> & Hw & Hc & Hb & Hk).
      exists w, s1, new. repeat split; try assumption.
      * left. exact Hw.
      * intros i Hi. cbn [binds] in Hi. apply andb_true_iff in Hi. apply Hb, Hi.
    + destruct (IHb Hcapb _ _ _ _ H) as (w & s1 & new & -> & Hw & Hc & Hb & Hk).
      exists w, s1, new. repeat split; try assumption.
      * right. exact Hw.
      * intros i Hi. cbn [binds] in Hi. apply andb_true_iff in Hi. apply Hb, Hi.
  - rewrite rematch_star in H.
    destruct (star_rounds_sound a k m) with (n := S (length s)) (s := s) (g := g)
      as (w & s1 & new & -> & Hw & Hc & Hk).
    + intros s' g' k' Hone.
      destruct (IHa Hcap _ _ _ _ Hone) as (w & s1 & new & -> & Hw & Hc & _ & Hk).
      exists w, s1, new. repeat split; assumption.
    + exact H.
    + exists w, s1, new. repeat split; try assumption.
      intros i Hi; discriminate Hi.
  - destruct Hcap as [Hcapa Hgroup].
    rewrite rematch_group in H.
    destruct (IHa Hcapa _ _ _ _ H) as (w & s1 & new & -> & Hw & Hc & Hb & Hk).
    rewrite firstn_matched in Hk.
    exists w, s1, ((i, w) :: new). repeat split; try assumption.
    + constructor; [apply Hgroup; exact Hw | exact Hc].
    + intros j Hj. cbn [binds] in Hj. apply orb_true_iff in Hj.
      destruct Hj as [Hj|Hj].
      * left. apply Nat.eqb_eq in Hj. symmetry. exact Hj.
      * right. apply Hb. exact Hj.
Qed.

Lemma match_here_sound (r : regex) (s rest : str) (g : groups) :
  captures U ignorecase P r ->
  match_here U ignorecase r s = Some (rest, g) ->
  exists w,
    s = w ++ rest /\ lang U ignorecase r w /\ captured P g /\
    (forall i, binds i r = true -> In i (map fst g)).
Proof.
  intros Hcap H. unfold match_here in H.
  destruct (rematch_sound r Hcap _ _ _ _ H) as (w & s1 & new & -> & Hw & Hc & Hb & Hk).
  rewrite app_nil_r in Hk. injection Hk as <- <-.
  exists w. repeat split; assumption.
Qed.

Lemma search_sound (r : regex) (s : str) (g : groups) :
  captures U ignorecase P r ->
  search U ignorecase r s = Some g ->
  captured P g /\ (forall i, binds i r = true -> In i (map fst g)).
Proof.
  intros Hcap. induction s as [|c s IH]; cbn [search];
    destruct (match_here U ignorecase r _) as [[rest g']|] eqn:Hhere;
    intros H; try discriminate H.
  - injection H as <-.
    destruct (match_here_sound _ _ _ _ Hcap Hhere) as (_ & _ & _ & Hc & Hb).
    split; assumption.
  - injection H as <-.
    destruct (match_here_sound _ _ _ _ Hcap Hhere) as (_ & _ & _ & Hc & Hb).
    split; assumption.
  - apply IH. exact H.
Qed.

(** A group that is bound holds a word its group stands for. *)
Lemma group_captured (i : nat) (g : groups) :
  captured P g -> In i (map fst g) -> P i (group i g).
Proof.
  unfold group, captured.
  induction g as [|[j w] g IH]; intros Hc Hin; [destruct Hin|].
  inversion Hc as [|e g' Hjw Hg]; subst.
  cbn [group_lookup]. destruct (Nat.eqb i j) eqn:Hij.
  - apply Nat.eqb_eq in Hij. subst j. exact Hjw.
  - apply IH; [exact Hg|].
    destruct Hin as [Hin|Hin]; [|exact Hin].
    simpl in Hin. subst j. rewrite Nat.eqb_refl in Hij. discriminate Hij.
Qed.

End MatcherSound.

Lemma captures_anything (U : unicode_db) (ignorecase : bool) (r : regex) :
  captures U ignorecase (fun _ _ => True) r.
Proof.
  induction r; cbn [captures]; try exact I; try (split; assumption);
    try assumption.
  split; [assumption | intros; exact I].
Qed.

(** Every string [findall] returns is a word of the pattern. *)
Lemma findall_sound (U : unicode_db) (ignorecase : bool) (r : regex) (s : str) :
  Forall (lang U ignorecase r) (findall U ignorecase r s).
Proof.
  unfold findall. generalize 0 as skip.
  induction s as [|c s IH]; intros skip; cbn [findall_from].
  - destruct skip; [|constructor].
    destruct (match_here U ignorecase r []) as [[rest g]|] eqn:Hhere;
      [|constructor].
    destruct (match_here_sound U ignorecase (fun _ _ => True) _ _ _ _
                (captures_anything U ignorecase r) Hhere)
      as (w & Hs & Hw & _).
    symmetry in Hs. apply app_eq_nil in Hs. destruct Hs as [-> _].
    constructor; [exact Hw | constructor].
  - destruct skip as [|k]; [|apply IH].
    destruct (match_here U ignorecase r (c :: s)) as [[rest g]|] eqn:Hhere;
      [|apply IH].
    destruct (match_here_sound U ignorecase (fun _ _ => True) _ _ _ _
                (captures_anything U ignorecase r) Hhere)
      as (w & Hs & Hw & _).
    constructor; [|apply IH].
    rewrite Hs, firstn_matched. exact Hw.
Qed.

Section PatternWords.
Variable U : unicode_db.

Lemma lang_star_chr (ignorecase : bool) (cs : charset) (w : str) :
  lang U ignorecase (Star (Chr cs)) w ->
  Forall (fun c => in_charset U ignorecase cs c = true) w.
Proof.
  intros (ws & -> & Hws).
  induction Hws as [|w1 ws (c & -> & Hc) _ IH]; simpl; [constructor|].
  constructor; assumption.
Qed.

Lemma lang_plus_chr (ignorecase : bool) (cs : charset) (w : str) :
  lang U ignorecase (Plus (Chr cs)) w ->
  w <> [] /\ Forall (fun c => in_charset U ignorecase cs c = true) w.
Proof.
  intros (w1 & w2 & -> & (c & -> & Hc) & Hstar).
  split; [discriminate|].
  constructor; [exact Hc | apply lang_star_chr; exact Hstar].
Qed.

Lemma month_day_words (w : str) :
  lang U false month_day w -> month_day_shape U w.
Proof.
  intros (word & rest & -> & Hword & (blank & digits & -> & (c & -> & Hc) & Hdigits)).
  apply lang_plus_chr in Hword. apply lang_plus_chr in Hdigits.
  cbn [in_charset] in Hc. apply N.eqb_eq in Hc. subst c.
  destruct Hword as [Hne Hword].
  exists word, digits. repeat split; try assumption; apply Hdigits.
Qed.

Lemma date_pattern_captures :
  captures U false (fun _ w => month_day_shape U w) date_pattern.
Proof.
  unfold date_pattern, month_day, Plus. cbn [captures].
  repeat match goal with |- _ /\ _ => split end;
    first [exact I | intros w Hw; apply month_day_words; exact Hw].
Qed.

Lemma death_number_pattern_captures :
  captures U true (fun _ w => digit_string U w) death_number_pattern.
Proof.
  unfold death_number_pattern, Opt, Plus. cbn [captures Lits py].
  repeat match goal with |- _ /\ _ => split end;
    first [exact I | intros w Hw; apply lang_plus_chr in Hw; exact Hw].
Qed.

(** The groups of a date match: both are bound, and both are dates. *)
Lemma date_search_groups (s : str) (date_parts : groups) :
  date_search U s = Some date_parts ->
  month_day_shape U (group 1 date_parts) /\
  month_day_shape U (group 2 date_parts).
Proof.
  intros H. unfold date_search in H.
  destruct (search_sound _ _ _ _ _ _ date_pattern_captures H) as [Hc Hb].
  split; apply (group_captured (fun _ w => month_day_shape U w));
    try exact Hc; apply Hb; reflexivity.
Qed.

(** The group of a death cue: bound, and a number. *)
Lemma death_search_group (s : str) (death_match : groups) :
  death_search U s = Some death_match ->
  digit_string U (group 1 death_match).
Proof.
  intros H. unfold death_search in H.
  destruct (search_sound _ _ _ _ _ _ death_number_pattern_captures H) as [Hc Hb].
  apply (group_captured (fun _ w => digit_string U w));
    [exact Hc | apply Hb; reflexivity].
Qed.

Lemma capitalized_words (w : str) :
  lang U false capitalized w ->
  exists c smalls,
    w = c :: smalls /\ is_capital c = true /\ smalls <> [] /\
    Forall (fun x => is_small x = true) smalls.
Proof.
  intros (w1 & smalls & -> & (c & -> & Hc) & Hsmalls).
  apply lang_plus_chr in Hsmalls. destruct Hsmalls as [Hne Hsmalls].
  exists c, smalls. repeat split; assumption.
Qed.

Lemma proper_noun_words (w : str) :
  lang U false proper_noun_pattern w -> proper_noun_shape w.
Proof.
  intros (first & more & -> & Hfirst & (ws & -> & Hws)).
  apply capitalized_words in Hfirst.
  destruct Hfirst as (c & smalls & -> & Hc & Hne & Hsmalls).
  exists c, (smalls ++ concat ws). repeat split.
  - exact Hc.
  - destruct smalls; [contradiction Hne; reflexivity | discriminate].
  - apply Forall_app. split.
    + eapply Forall_impl; [|exact Hsmalls].
      intros x Hx. cbv beta in Hx. rewrite Hx. reflexivity.
    + induction Hws as [|w1 ws Hw1 _ IH]; simpl; [constructor|].
      apply Forall_app. split; [|exact IH].
      destruct Hw1 as (blank & word & -> & (b & -> & Hb) & Hword).
      apply capitalized_words in Hword.
      destruct Hword as (c' & smalls' & -> & Hc' & _ & Hsmalls').
      cbn [in_charset] in Hb. apply N.eqb_eq in Hb. subst b.
      constructor; [reflexivity|].
      constructor.
      * rewrite Hc'. apply orb_true_iff. left. apply orb_true_r.
      * eapply Forall_impl; [|exact Hsmalls'].
        intros x Hx. cbv beta in Hx. rewrite Hx. reflexivity.
Qed.

End PatternWords.

(** ** What the columns can hold *)

(** X4. Every area [extract_affected_areas] returns starts with a capital
    A-Z, has at least one more character, and after the capital holds
    nothing but the letters a-z and A-Z and blanks: no digit, no
    punctuation, no letter outside Basic Latin. *)
Theorem areas_have_the_proper_noun_shape (U : unicode_db) (text : str) :
  Forall proper_noun_shape (extract_affected_areas U text).
Proof.
  rewrite extract_affected_areas_all.
  eapply Forall_impl; [|apply findall_sound].
  intros w Hw. apply (proper_noun_words U). exact Hw.
Qed.

Lemma scan_all_deaths_digits (U : unicode_db) (texts : list str) :
  forall l,
    digit_string U (hurricane_deaths l) ->
    digit_string U (hurricane_deaths (scan_all U texts l)).
Proof.
  unfold scan_all.
  induction texts as [|text texts IH]; intros l Hl; simpl; [exact Hl|].
  apply IH. unfold scan_text; cbn [hurricane_deaths].
  destruct (death_search U text) as [death_match|] eqn:Hcue; [|exact Hl].
  apply death_search_group with (s := text). exact Hcue.
Qed.

Lemma extracted_deaths_digits (U : unicode_db) (heading : element) :
  digit_string U (hurricane_deaths (extracted U heading)).
Proof.
  unfold extracted, olivia_override.
  destruct (is_olivia U _).
  - cbn [hurricane_deaths]. split; [discriminate | repeat constructor].
  - rewrite sibling_walk_scans_section.
    apply scan_all_deaths_digits.
    destruct (find_duration_frame U heading (initial_locals U heading))
      as (_ & -> & _).
    split; [discriminate | repeat constructor].
Qed.

Lemma scrape_columns (U : unicode_db) (page : list node) :
  let records := map (extracted U) (storm_headings U page) in
  hurricane_names (scrape U page) = map hurricane_name records /\
  start_dates (scrape U page) = map date_start records /\
  end_dates (scrape U page) = map date_end records /\
  deaths (scrape U page) = map hurricane_deaths records /\
  areas_affected (scrape U page) = map joined_areas records.
Proof.
  unfold scrape, storm_headings. rewrite process_headings_appends.
  apply (appended_columns
           (map (extracted U)
              (filter (names_a_storm U) (find_all (py "h3") (soup_of page))))
           empty_table).
Qed.

(** X5. Every entry of the deaths column is a number written in digits,
    at least one digit long: the column never holds the placeholder "-" nor
    an empty string. *)
Theorem death_counts_are_numbers (U : unicode_db) (page : list node) :
  Forall (digit_string U) (deaths (scrape U page)).
Proof.
  destruct (scrape_columns U page) as (_ & _ & _ & -> & _).
  rewrite map_map. apply Forall_forall. intros d Hd.
  apply in_map_iff in Hd. destruct Hd as (heading & <- & _).
  apply extracted_deaths_digits.
Qed.

Lemma month_day_shape_not_dash (U : unicode_db) (w : str) :
  month_day_shape U w -> w <> py "-".
Proof.
  intros (word & digits & -> & Hword & _ & Hdigits & _) Heq.
  apply (f_equal (@length codepoint)) in Heq.
  rewrite length_app in Heq. simpl in Heq.
  destruct digits; [apply Hdigits; reflexivity|]. simpl in Heq. lia.
Qed.

(** X6. The two dates of a record come in pairs: either both are the
    placeholder "-", or both are a word, a blank and a number, as the two
    groups of one match of the date pattern; a record never has one date
    without the other. *)
Theorem dates_come_in_pairs (U : unicode_db) (heading : element) :
  let l := extracted U heading in
  (date_start l = py "-" /\ date_end l = py "-") \/
  (month_day_shape U (date_start l) /\ month_day_shape U (date_end l) /\
   date_start l <> py "-" /\ date_end l <> py "-").
Proof.
  cbv zeta.
  destruct (extracted_dates U heading) as [-> ->].
  unfold find_duration.
  destruct (find_next _ _ heading) as [infobox|]; [|left; split; reflexivity].
  destruct (find_text _ _ infobox) as [row|]; [|left; split; reflexivity].
  destruct (find_next_sibling_named _ (snd row)) as [td|];
    [|left; split; reflexivity].
  cbv zeta.
  destruct (date_search U (get_text_strip U td)) as [date_parts|] eqn:Hrange;
    [|left; split; reflexivity].
  right. cbn [date_start date_end].
  destruct (date_search_groups U _ _ Hrange) as [H1 H2].
  repeat split; try assumption; apply (month_day_shape_not_dash U); assumption.
Qed.

Lemma join_first (sep a : str) (c : codepoint) (a' : str) (rest : list str) :
  a = c :: a' -> exists tail, join sep (a :: rest) = c :: tail.
Proof.
  intros ->. destruct rest as [|b rest]; simpl; eexists; reflexivity.
Qed.

Lemma extracted_areas_capital (U : unicode_db) (heading : element) :
  Forall (fun a => exists c rest, a = c :: rest /\ is_capital c = true)
    (hurricane_affected_areas (extracted U heading)).
Proof.
  unfold extracted, olivia_override.
  destruct (is_olivia U _).
  - cbn [hurricane_affected_areas]. constructor; [|constructor].
    eexists; eexists; split; reflexivity.
  - rewrite sibling_walk_scans_section, scan_all_areas.
    destruct (find_duration_frame U heading (initial_locals U heading))
      as (_ & _ & ->).
    cbn [initial_locals hurricane_affected_areas app].
    apply Forall_concat. apply Forall_map. apply Forall_forall.
    intros text _. unfold proper_nouns.
    eapply Forall_impl; [|apply findall_sound].
    intros w Hw. apply (proper_noun_words U) in Hw.
    destruct Hw as (c & rest & -> & Hc & _).
    exists c, rest. split; [reflexivity | exact Hc].
Qed.

(** X7. The areas entry of a record is the placeholder "-" exactly when no
    area was found for the heading: a found area starts with a capital
    letter, so the joined areas never read "-". *)
Theorem areas_dash_means_none (U : unicode_db) (heading : element) :
  joined_areas (extracted U heading) = py "-"
  <-> hurricane_affected_areas (extracted U heading) = [].
Proof.
  unfold joined_areas.
  pose proof (extracted_areas_capital U heading) as Hcap.
  destruct (hurricane_affected_areas (extracted U heading)) as [|a rest].
  - split; reflexivity.
  - cbn [is_empty]. split; [|discriminate].
    intros Hjoin. inversion Hcap as [|a0 l0 (c & a' & Ha & Hc) _]; subst.
    destruct (join_first (py "; ") (c :: a') c a' rest eq_refl) as [tail Htail].
    rewrite Htail in Hjoin. injection Hjoin as -> _.
    discriminate Hc.
Qed.

(** ** The removal of the citation marks *)

Lemma node_induction (P : node -> Prop) :
  (forall s, P (NavigableString s)) ->
  (forall s, P (Comment s)) ->
  (forall name cls cs, Forall P cs -> P (Tag name cls cs)) ->
  forall n, P n.
Proof.
  intros Hstring Hcomment Htag.
  refine (fix IH (n : node) : P n :=
            match n with
            | NavigableString s => Hstring s
            | Comment s => Hcomment s
            | Tag name cls cs =>
                Htag name cls cs
                  ((fix all (l : list node) : Forall P l :=
                      match l with
                      | [] => Forall_nil P
                      | c :: l' => Forall_cons c (IH c) (all l')
                      end) cs)
            end).
Qed.

Lemma drop_sup_tag (name : str) (cls : list str) (cs : list node) :
  drop_sup (Tag name cls cs) = Tag name cls (drop_sups cs).
Proof. reflexivity. Qed.

Lemma subtree_tag (name : str) (cls : list str) (cs sibs : list node) :
  subtree (Tag name cls cs) sibs = (Tag name cls cs, sibs) :: subtrees cs.
Proof. reflexivity. Qed.

Lemma drop_sups_cons (c : node) (l : list node) :
  drop_sups (c :: l)
  = if is_tag (py "sup") c then drop_sups l else drop_sup c :: drop_sups l.
Proof. reflexivity. Qed.

Lemma subtrees_cons (c : node) (l : list node) :
  subtrees (c :: l) = subtree c l ++ subtrees l.
Proof. reflexivity. Qed.


Lemma drop_sup_leaves_no_sup (n : node) :
  is_tag (py "sup") n = false ->
  forall sibs,
    Forall (fun d => is_tag (py "sup") (fst d) = false)
      (subtree (drop_sup n) sibs).
Proof.
  induction n as [s|s|name cls cs IH] using node_induction;
    intros Hn sibs.
  - repeat constructor.
  - repeat constructor.
  - rewrite drop_sup_tag, subtree_tag.
    constructor; [exact Hn|].
    clear Hn sibs. induction IH as [|c cs Hc _ IHcs]; [constructor|].
    rewrite drop_sups_cons.
    destruct (is_tag (py "sup") c) eqn:Hsup; [exact IHcs|].
    rewrite subtrees_cons. apply Forall_app. split; [|exact IHcs].
    apply Hc. reflexivity.
Qed.

Lemma locate_nodes (Q : node -> Prop) (l : list (node * list node)) :
  Forall (fun d => Q (fst d)) l -> Forall (fun e => Q (el_node e)) (locate l).
Proof.
  induction 1 as [|[n sibs] l Hn _ IH]; simpl; constructor; assumption.
Qed.

Lemma filter_none {A : Type} (f : A -> bool) (l : list A) :
  Forall (fun x => f x = false) l -> filter f l = [].
Proof.
  induction 1 as [|x l Hx _ IH]; simpl; [reflexivity|].
  rewrite Hx. exact IH.
Qed.

(** X8. No [sup] tag is left in the tree the headings are looked up in,
    at whatever depth it stood in the page. *)
Theorem soup_has_no_sup (page : list node) :
  find_all (py "sup") (soup_of page) = [].
Proof.
  unfold find_all. apply filter_none.
  apply (locate_nodes (fun n => is_tag (py "sup") n = false)).
  unfold descendants, soup_of.
  pose proof (drop_sup_leaves_no_sup (Tag (py "[document]") [] page)
                eq_refl []) as Hall.
  inversion Hall as [|d l _ Htl]; subst. exact Htl.
Qed.



Example citation_mark_is_not_read :
  section_texts basic_latin (el_next_siblings (heading_at 0 cited_page))
  = [py "The storm killed 15 people."].
Proof. vm_compute. reflexivity. Qed.

(** ** The line logged at the end *)

(** X10. The warning "No hurricane names found!" is logged exactly when no
    [h3] heading of the page names a storm; otherwise the line logged
    tells how many did. *)
Theorem report_tells_whether_storms_were_found (U : unicode_db) (page : list node) :
  (report (scrape U page) = py "WARNING: No hurricane names found!"
   <-> storm_headings U page = []) /\
  (storm_headings U page <> [] ->
   report (scrape U page)
   = py "INFO: Extracted " ++ decimal (length (storm_headings U page))
       ++ py " hurricane names.").
Proof.
  unfold report.
  destruct (scrape_columns U page) as (-> & _).
  rewrite length_map, length_map.
  destruct (storm_headings U page) as [|h storms]; cbn [map is_empty].
  - split; [split; reflexivity | intros Hne; contradiction Hne; reflexivity].
  - split; [|intros _; reflexivity].
    split; [intros Hline; discriminate Hline | intros Hnil; discriminate Hnil].
Qed.

(** ** When the "Duration" lookup fails *)

(** X11. Both dates are "-" whenever a step of the lookup fails: no infobox
    table follows the heading; or the first one that follows has no [th]
    whose string is "Duration"; or no [td] follows that [th] under its
    parent; or the text of that [td] holds no date range.  Only the first
    infobox table is ever consulted. *)
Theorem lookup_failure_gives_dashes (U : unicode_db) (heading : element) :
  find_next (py "table") (py "infobox") heading = None \/
  (exists infobox,
      find_next (py "table") (py "infobox") heading = Some infobox /\
      (find_text (py "th") (py "Duration") infobox = None \/
       exists duration_row,
         find_text (py "th") (py "Duration") infobox = Some duration_row /\
         (find_next_sibling_named (py "td") (snd duration_row) = None \/
          exists duration_data,
            find_next_sibling_named (py "td") (snd duration_row)
            = Some duration_data /\
            date_search U (get_text_strip U duration_data) = None))) ->
  date_start (extracted U heading) = py "-" /\
  date_end (extracted U heading) = py "-".
Proof.
  intros Hfail.
  destruct (extracted_dates U heading) as [-> ->].
  assert (Hsame : find_duration U heading (initial_locals U heading)
                  = initial_locals U heading).
  { unfold find_duration.
    destruct Hfail as [-> | (infobox & -> & Hrow)]; [reflexivity|].
    destruct Hrow as [-> | (row & -> & Hdata)]; [reflexivity|].
    destruct Hdata as [-> | (td & -> & Hrange)]; [reflexivity|].
    cbv zeta. rewrite Hrange. reflexivity. }
  rewrite Hsame. split; reflexivity.
Qed.

(** X11 at a heading whose first infobox table has no "Duration" row while
    the next one has. *)
Lemma lookup_failure_gives_dashes_witness :
  length (filter is_infobox (el_next_elements (heading_at 0 two_tables_page))) = 2 /\
  date_start (extracted basic_latin (heading_at 0 two_tables_page)) = py "-" /\
  date_end (extracted basic_latin (heading_at 0 two_tables_page)) = py "-".
Proof.
  split; [vm_compute; reflexivity|].
  apply (lookup_failure_gives_dashes basic_latin (heading_at 0 two_tables_page)).
  right.
  exists (Tag (py "table") [py "infobox"]
            [Tag (py "tr") []
               [Tag (py "th") [] [NavigableString (py "Formed")];
                Tag (py "td") [] [NavigableString june_2_5]]]).
  split; [vm_compute; reflexivity|].
  left. vm_compute. reflexivity.
Defined.

(** ** What the walk passes over *)

Lemma section_texts_insert (U : unicode_db) (a b : list node) (n : node) :
  is_tag (py "p") n = false ->
  is_stop n = false ->
  section_texts U (a ++ n :: b) = section_texts U (a ++ b).
Proof.
  intros Hp Hstop. unfold section_texts.
  induction a as [|x a IH]; cbn [app section_siblings].
  - rewrite Hstop. cbn [filter]. rewrite Hp. reflexivity.
  - destruct (is_stop x); [reflexivity|].
    cbn [filter]. destruct (is_tag (py "p") x); cbn [map]; rewrite IH;
      reflexivity.
Qed.

(** X12. The walk reads the [p] tags that are siblings of the heading and
    nothing else: a string, a comment or a tag that is neither [p], [h3]
    nor [h4] among the siblings is passed over with everything it holds,
    so a paragraph inside a [div] or a list is not read. *)
Theorem walk_passes_over_other_siblings (U : unicode_db)
    (before after : list node) (n : node) (l : locals) :
  is_tag (py "p") n = false ->
  is_stop n = false ->
  sibling_walk U (before ++ n :: after) l = sibling_walk U (before ++ after) l.
Proof.
  intros Hp Hstop.
  rewrite !sibling_walk_scans_section.
  rewrite section_texts_insert by assumption.
  reflexivity.
Qed.

(** X12 at a [div] that holds a paragraph with a death cue. *)
Lemma walk_passes_over_other_siblings_witness :
  sibling_walk basic_latin (el_next_siblings (heading_at 0 nested_page))
    (initial_locals basic_latin (heading_at 0 nested_page))
  = sibling_walk basic_latin
      ([NavigableString (py " ")]
         ++ [Tag (py "p") [] [NavigableString (py "It dissipated at sea.")]])
      (initial_locals basic_latin (heading_at 0 nested_page)) /\
  deaths (scrape basic_latin nested_page) = [py "0"].
Proof.
  split; [|vm_compute; reflexivity].
  apply (walk_passes_over_other_siblings basic_latin
           [NavigableString (py " ")]
           [Tag (py "p") [] [NavigableString (py "It dissipated at sea.")]]
           (Tag (py "div") []
              [Tag (py "p") [] [NavigableString (py "The storm killed 15 people.")]]));
    reflexivity.
Defined.

(** ** The name of a heading *)

Lemma replace_absent (old new s : str) :
  contains old s = false -> replace old new s = s.
Proof.
  unfold replace.
  induction s as [|c s IH]; intros Hnone; [reflexivity|].
  cbn [contains] in Hnone. apply orb_false_iff in Hnone.
  destruct Hnone as [Hhere Hlater].
  cbn [replace_from]. rewrite Hhere, IH by exact Hlater. reflexivity.
Qed.

(** The marker does not start inside a text that does not hold it and end
    inside a marker put after the text. *)
Lemma marker_not_across (t : str) :
  t <> [] ->
  startswith (py "[edit]") t = false ->
  startswith (py "[edit]") (t ++ py "[edit]") = false.
Proof.
  intros Hne H.
  destruct t as [|c1 [|c2 [|c3 [|c4 [|c5 [|c6 t]]]]]];
    [contradiction Hne; reflexivity | | | | | |];
    cbn in H |- *;
    repeat match goal with
           | |- context [N.eqb ?a ?b] =>
               destruct (N.eqb_spec a b); subst; cbn in H |- *
           end;
    try reflexivity; try discriminate H; try congruence.
Qed.

Lemma replace_final_marker (s : str) :
  contains (py "[edit]") s = false ->
  replace (py "[edit]") [] (s ++ py "[edit]") = s.
Proof.
  unfold replace.
  induction s as [|c s IH]; intros Hnone; [reflexivity|].
  cbn [contains] in Hnone. apply orb_false_iff in Hnone.
  destruct Hnone as [Hhere Hlater].
  change ((c :: s) ++ py "[edit]") with (c :: (s ++ py "[edit]")).
  cbn [replace_from].
  change (c :: (s ++ py "[edit]")) with ((c :: s) ++ py "[edit]").
  rewrite marker_not_across by (discriminate || exact Hhere).
  rewrite IH by exact Hlater. reflexivity.
Qed.

(** X13. A heading whose text does not hold "[edit]" is named by its text;
    a heading whose text ends with "[edit]" and does not hold it before is
    named by the text before the marker. *)
Theorem heading_name_drops_a_final_marker (U : unicode_db) (heading : element) :
  let text := get_text_strip U (el_node heading) in
  (contains (py "[edit]") text = false -> heading_name U heading = text) /\
  (forall s, text = s ++ py "[edit]" ->
             contains (py "[edit]") s = false ->
             heading_name U heading = s).
Proof.
  cbv zeta. unfold heading_name. split.
  - intros Hnone. apply replace_absent. exact Hnone.
  - intros s -> Hnone. apply replace_final_marker. exact Hnone.
Qed.

Lemma heading_name_drops_a_final_marker_witness :
  get_text_strip basic_latin (el_node (heading_at 0 lily_page))
  = py "Hurricane Lily" ++ py "[edit]" /\
  heading_name basic_latin (heading_at 0 lily_page) = py "Hurricane Lily".
Proof.
  assert (Htext : get_text_strip basic_latin (el_node (heading_at 0 lily_page))
                  = py "Hurricane Lily" ++ py "[edit]")
    by (vm_compute; reflexivity).
  split; [exact Htext|].
  apply (proj2 (heading_name_drops_a_final_marker basic_latin
                  (heading_at 0 lily_page)) (py "Hurricane Lily") Htext).
  vm_compute. reflexivity.
Defined.

(** ** The loop over the headings *)

Lemma process_headings_app (U : unicode_db) (first later : list element) :
  forall t,
    process_headings U (first ++ later) t
    = process_headings U later (process_headings U first t).
Proof.
  induction first as [|h first IH]; intros t; [reflexivity|].
  cbn [app process_headings]. apply IH.
Qed.

(** X14. The loop over the headings only appends: from whatever table it
    starts, each column of the result is the column it started from
    followed by one entry per storm heading, in order, so rows already in
    the table are neither changed nor removed; and processing a list of
    headings in two parts, one after the other, gives the same table. *)
Theorem headings_loop_only_appends (U : unicode_db)
    (first later : list element) (t : table) :
  let records := map (extracted U) (filter (names_a_storm U) first) in
  let t' := process_headings U first t in
  (hurricane_names t' = hurricane_names t ++ map hurricane_name records /\
   start_dates t' = start_dates t ++ map date_start records /\
   end_dates t' = end_dates t ++ map date_end records /\
   deaths t' = deaths t ++ map hurricane_deaths records /\
   areas_affected t' = areas_affected t ++ map joined_areas records) /\
  process_headings U (first ++ later) t = process_headings U later t'.
Proof.
  cbv zeta. split; [|apply process_headings_app].
  rewrite process_headings_appends.
  apply (appended_columns
           (map (extracted U) (filter (names_a_storm U) first)) t).
Qed.

(** ** Siblings and document order *)

Section DocumentOrder.

Lemma good_app (l1 l2 : list (node * list node)) (tail : list node) :
  siblings_follow (map fst l2 ++ tail) l1 -> siblings_follow tail l2 -> siblings_follow tail (l1 ++ l2).
Proof.
  unfold siblings_follow. intros H1 H2.
  induction l1 as [|[n sibs] l1 IH]; [exact H2|].
  cbn [app locate] in H1 |- *.
  inversion H1 as [|e l Hhead Htail]; subst.
  constructor; [|apply IH; exact Htail].
  cbn [el_next_siblings el_next_elements] in Hhead |- *.
  rewrite map_app, <- app_assoc. exact Hhead.
Qed.

Lemma subtree_head (c : node) (sibs : list node) :
  exists rest, subtree c sibs = (c, sibs) :: rest.
Proof. destruct c; eexists; reflexivity. Qed.

Lemma subtrees_heads (cs : list node) : incl cs (map fst (subtrees cs)).
Proof.
  induction cs as [|c cs IH]; [apply incl_nil_l|].
  rewrite subtrees_cons, map_app.
  destruct (subtree_head c cs) as [rest ->].
  intros x [<-|Hx]; [left; reflexivity|].
  apply in_or_app. right. apply IH. exact Hx.
Qed.

Lemma subtree_good (c : node) :
  forall sibs tail, incl sibs tail -> siblings_follow tail (subtree c sibs).
Proof.
  induction c as [s|s|name cls cs IH] using node_induction;
    intros sibs tail Hsibs.
  - constructor; [exact Hsibs | constructor].
  - constructor; [exact Hsibs | constructor].
  - rewrite subtree_tag. unfold siblings_follow. cbn [locate].
    constructor.
    + cbn [el_next_siblings el_next_elements].
      apply incl_appr. exact Hsibs.
    + clear sibs Hsibs. revert tail.
      induction IH as [|c cs Hc _ IHcs]; intros tail; [constructor|].
      rewrite subtrees_cons. apply good_app; [|apply IHcs].
      apply Hc. apply incl_appl. apply subtrees_heads.
Qed.

Lemma descendants_good (name : str) (cls : list str) (cs : list node) :
  Forall (fun e => incl (el_next_siblings e) (el_next_elements e))
    (locate (descendants (Tag name cls cs))).
Proof.
  pose proof (subtree_good (Tag name cls cs) [] [] (incl_refl [])) as H.
  unfold siblings_follow in H. rewrite subtree_tag in H. cbn [locate] in H.
  inversion H as [|e l _ Htail]; subst.
  unfold descendants. rewrite subtree_tag. cbn [tl].
  eapply Forall_impl; [|exact Htail].
  intros e He. cbv beta in He. rewrite app_nil_r in He. exact He.
Qed.

End DocumentOrder.

(** X15. The nodes that follow a tag of the page as siblings are among the
    elements that follow it in the document; so when an infobox table
    stands among the following siblings of a heading, the "Duration"
    lookup does find a table to read (that one, or an infobox table that
    stands before it in the document). *)
Theorem siblings_follow_in_the_document (page : list node) (name : str)
    (e : element) :
  In e (find_all name (soup_of page)) ->
  incl (el_next_siblings e) (el_next_elements e) /\
  (existsb is_infobox (el_next_siblings e) = true ->
   find_next (py "table") (py "infobox") e <> None).
Proof.
  intros He. unfold find_all in He. apply filter_In in He.
  destruct He as [He _].
  assert (Hincl : incl (el_next_siblings e) (el_next_elements e)).
  { unfold soup_of in He. rewrite drop_sup_tag in He.
    pose proof (descendants_good (py "[document]") [] (drop_sups page)) as H.
    rewrite Forall_forall in H. apply H. exact He. }
  split; [exact Hincl|].
  intros Hbox Hnone. unfold find_next in Hnone.
  apply existsb_exists in Hbox. destruct Hbox as (n & Hn & Hisbox).
  pose proof (find_none _ _ Hnone n (Hincl n Hn)) as Hnot.
  unfold is_infobox in Hisbox. rewrite Hisbox in Hnot. discriminate Hnot.
Qed.

Lemma siblings_follow_in_the_document_witness :
  existsb is_infobox (el_next_siblings (heading_at 0 lily_page)) = true /\
  find_next (py "table") (py "infobox") (heading_at 0 lily_page) <> None.
Proof.
  assert (Hin : In (heading_at 0 lily_page)
                  (find_all (py "h3") (soup_of lily_page)))
    by (left; reflexivity).
  assert (Hbox : existsb is_infobox (el_next_siblings (heading_at 0 lily_page))
                 = true) by (vm_compute; reflexivity).
  split; [exact Hbox|].
  exact (proj2 (siblings_follow_in_the_document lily_page (py "h3")
                  (heading_at 0 lily_page) Hin) Hbox).
Defined.

(** ** What each field depends on *)

Lemma scan_all_deaths_from (U : unicode_db) (texts : list str) :
  forall l l',
    hurricane_deaths l = hurricane_deaths l' ->
    hurricane_deaths (scan_all U texts l) = hurricane_deaths (scan_all U texts l').
Proof.
  unfold scan_all.
  induction texts as [|text texts IH]; intros l l' Hd; simpl; [exact Hd|].
  apply IH. unfold scan_text; cbn [hurricane_deaths]. rewrite Hd. reflexivity.
Qed.

Lemma walked_fields (U : unicode_db) (heading : element) :
  let walked := sibling_walk U (el_next_siblings heading)
                  (find_duration U heading (initial_locals U heading)) in
  let scanned := scan_all U (section_texts U (el_next_siblings heading))
                   (initial_locals U heading) in
  hurricane_name walked = heading_name U heading /\
  hurricane_deaths walked = hurricane_deaths scanned /\
  hurricane_affected_areas walked = hurricane_affected_areas scanned.
Proof.
  cbv zeta. split; [apply walked_name|].
  rewrite sibling_walk_scans_section.
  destruct (find_duration_frame U heading (initial_locals U heading))
    as (_ & Hd & Ha).
  split.
  - apply scan_all_deaths_from. exact Hd.
  - rewrite !scan_all_areas, Ha. reflexivity.
Qed.

(** X16. The death count and the areas of a record depend on the heading's
    name and its following siblings only, and the dates on the elements
    that follow the heading in the document only: the table after the
    heading has no part in the former, the name and the paragraphs none in
    the latter. *)
Theorem fields_depend_on_their_sources (U : unicode_db) (h1 h2 : element) :
  (heading_name U h1 = heading_name U h2 ->
   el_next_siblings h1 = el_next_siblings h2 ->
   hurricane_deaths (extracted U h1) = hurricane_deaths (extracted U h2) /\
   hurricane_affected_areas (extracted U h1)
   = hurricane_affected_areas (extracted U h2)) /\
  (el_next_elements h1 = el_next_elements h2 ->
   date_start (extracted U h1) = date_start (extracted U h2) /\
   date_end (extracted U h1) = date_end (extracted U h2)).
Proof.
  split.
  - intros Hname Hsibs.
    destruct (walked_fields U h1) as (Hn1 & Hd1 & Ha1).
    destruct (walked_fields U h2) as (Hn2 & Hd2 & Ha2).
    assert (Hinit : initial_locals U h1 = initial_locals U h2)
      by (unfold initial_locals; rewrite Hname; reflexivity).
    unfold extracted, olivia_override.
    rewrite Hn1, Hn2, Hname.
    destruct (is_olivia U (heading_name U h2)); [split; reflexivity|].
    rewrite Hd1, Hd2, Ha1, Ha2, Hsibs, Hinit. split; reflexivity.
  - intros Hnext.
    destruct (extracted_dates U h1) as [-> ->].
    destruct (extracted_dates U h2) as [-> ->].
    unfold find_duration, find_next. rewrite Hnext.
    destruct (find _ (el_next_elements h2)) as [infobox|];
      [|split; reflexivity].
    destruct (find_text _ _ infobox) as [row|]; [|split; reflexivity].
    destruct (find_next_sibling_named _ (snd row)) as [td|];
      [|split; reflexivity].
    cbv zeta. destruct (date_search U _); split; reflexivity.
Qed.

(** X16 at the heading of [lily_page] and a heading with the same name and
    siblings that nothing follows in the document. *)
Lemma fields_depend_on_their_sources_witness :
  hurricane_deaths
    (extracted basic_latin
       {| el_node := el_node (heading_at 0 lily_page);
          el_next_siblings := el_next_siblings (heading_at 0 lily_page);
          el_next_elements := [] |})
  = py "15".
Proof.
  rewrite (proj1 (proj1 (fields_depend_on_their_sources basic_latin
                    {| el_node := el_node (heading_at 0 lily_page);
                       el_next_siblings := el_next_siblings (heading_at 0 lily_page);
                       el_next_elements := [] |}
                    (heading_at 0 lily_page)) eq_refl eq_refl)).
  vm_compute. reflexivity.
Defined.
